(** * Handle manager of the dxgkrnl driver (drivers/hyperv/dxgkrnl/hmgr.c)

    A shallow embedding of the generation-counted handle table.
    - [uint] values are [Z] in [0, 2^32) with the wrap-around written out
      ([u32]); bit-fields are stored truncated to their width.
    - The entry array is [option (list hmgrentry)]: [None] is the NULL
      [entry_table] of a table that has never been expanded.
    - Every access to the entry array is bounds checked; an access outside
      the array is undefined behaviour in C and makes an operation return
      [None].  Error returns of the C code are ordinary results.
    - [DXGKRNL_ASSERT] (defined outside this file) is taken not to stop
      execution: it has no effect on the state.
    - The union of an entry ([object] or the pair [prev_free_index],
      [next_free_index]) is one 64-bit word [link]: on the little-endian
      targets of the driver [prev_free_index] is its low and
      [next_free_index] its high 32-bit half. *)

From Stdlib Require Import ZArith List Lia Bool.
Import ListNotations.
Open Scope Z_scope.

Notation "'let?' x ':=' m 'in' k" :=
  (match m with Some x => k | None => None end)
  (at level 200, x pattern, m at level 100, k at level 200).

(** ** Machine integers *)

Definition u32 (x : Z) : Z := x mod 2 ^ 32.
Definition u64 (x : Z) : Z := x mod 2 ^ 64.

(** ** Handle parameters *)

Definition HMGRHANDLE_INSTANCE_BITS : Z := 6.
Definition HMGRHANDLE_INDEX_BITS : Z := 24.
Definition HMGRHANDLE_UNIQUE_BITS : Z := 2.

Definition HMGRHANDLE_INSTANCE_SHIFT : Z := 0.
Definition HMGRHANDLE_INDEX_SHIFT : Z :=
  HMGRHANDLE_INSTANCE_BITS + HMGRHANDLE_INSTANCE_SHIFT.
Definition HMGRHANDLE_UNIQUE_SHIFT : Z :=
  HMGRHANDLE_INDEX_BITS + HMGRHANDLE_INDEX_SHIFT.

Definition HMGRHANDLE_INSTANCE_MASK : Z :=
  u32 (Z.shiftl (Z.shiftl 1 HMGRHANDLE_INSTANCE_BITS - 1) HMGRHANDLE_INSTANCE_SHIFT).
Definition HMGRHANDLE_INDEX_MASK : Z :=
  u32 (Z.shiftl (Z.shiftl 1 HMGRHANDLE_INDEX_BITS - 1) HMGRHANDLE_INDEX_SHIFT).
Definition HMGRHANDLE_UNIQUE_MASK : Z :=
  u32 (Z.shiftl (Z.shiftl 1 HMGRHANDLE_UNIQUE_BITS - 1) HMGRHANDLE_UNIQUE_SHIFT).

Definition HMGRHANDLE_INSTANCE_MAX : Z := Z.shiftl 1 HMGRHANDLE_INSTANCE_BITS - 1.
Definition HMGRHANDLE_INDEX_MAX : Z := Z.shiftl 1 HMGRHANDLE_INDEX_BITS - 1.
Definition HMGRHANDLE_UNIQUE_MAX : Z := Z.shiftl 1 HMGRHANDLE_UNIQUE_BITS - 1.

Definition HMGRTABLE_SIZE_INCREMENT : Z := 1024.
Definition HMGRTABLE_MIN_FREE_ENTRIES : Z := 128.
(** [~((1 << 24) - 1)] is an [int]; it is compared with and stored into
    [uint] fields, i.e. as [0xFF000000]. *)
Definition HMGRTABLE_INVALID_INDEX : Z :=
  u32 (Z.lnot (Z.shiftl 1 HMGRHANDLE_INDEX_BITS - 1)).

(** [static uint table_size_increment = HMGRTABLE_SIZE_INCREMENT;]
    (never changed in this file). *)
Definition table_size_increment : Z := HMGRTABLE_SIZE_INCREMENT.

(** [HMGRENTRY_TYPE_FREE] of [enum hmgrentry_type]; the other members are
    object kinds compared only for equality.  The [type] bit-field is
    [HMGRENTRY_TYPE_BITS + 1] wide, one bit more than the enum needs
    (the constant is defined in a header outside this file), so a
    member of the enum is stored without truncation. *)
Definition HMGRENTRY_TYPE_FREE : Z := 0.

(** NTSTATUS codes returned by [hmgrtable_assign_handle]. *)
Definition STATUS_INVALID_PARAMETER : Z := -1073741811.
Definition STATUS_NO_MEMORY : Z := -1073741801.

(** ** Handle codec *)

Definition get_unique (h : Z) : Z :=
  Z.shiftr (Z.land h HMGRHANDLE_UNIQUE_MASK) HMGRHANDLE_UNIQUE_SHIFT.

Definition get_index (h : Z) : Z :=
  Z.shiftr (Z.land h HMGRHANDLE_INDEX_MASK) HMGRHANDLE_INDEX_SHIFT.

Definition get_instance (h : Z) : Z :=
  Z.shiftr (Z.land h HMGRHANDLE_INSTANCE_MASK) HMGRHANDLE_INSTANCE_SHIFT.

Definition build_handle (index unique instance : Z) : Z :=
  let handle_bits :=
    Z.land (u32 (Z.shiftl index HMGRHANDLE_INDEX_SHIFT)) HMGRHANDLE_INDEX_MASK in
  let handle_bits :=
    Z.lor handle_bits
      (Z.land (u32 (Z.shiftl unique HMGRHANDLE_UNIQUE_SHIFT)) HMGRHANDLE_UNIQUE_MASK) in
  let handle_bits :=
    Z.lor handle_bits
      (Z.land (u32 (Z.shiftl instance HMGRHANDLE_INSTANCE_SHIFT)) HMGRHANDLE_INSTANCE_MASK) in
  handle_bits.

(** ** Entries and table *)

(** [struct hmgrentry]: the union word and the bit-fields [type],
    [unique:2], [instance:6], [destroyed:1]. *)
Record hmgrentry := mk_entry {
  link : Z;
  type : Z;
  unique : Z;
  instance : Z;
  destroyed : Z;
}.

Definition object (e : hmgrentry) : Z := link e.
Definition prev_free_index (e : hmgrentry) : Z := Z.land (link e) (Z.ones 32).
Definition next_free_index (e : hmgrentry) : Z := Z.shiftr (link e) 32.

Definition set_object (o : Z) (e : hmgrentry) : hmgrentry :=
  mk_entry (u64 o) (type e) (unique e) (instance e) (destroyed e).
Definition set_prev_free_index (p : Z) (e : hmgrentry) : hmgrentry :=
  mk_entry (Z.lor (Z.land (link e) (Z.shiftl (Z.ones 32) 32)) (u32 p))
    (type e) (unique e) (instance e) (destroyed e).
Definition set_next_free_index (n : Z) (e : hmgrentry) : hmgrentry :=
  mk_entry (Z.lor (Z.land (link e) (Z.ones 32)) (Z.shiftl (u32 n) 32))
    (type e) (unique e) (instance e) (destroyed e).
Definition set_type (t : Z) (e : hmgrentry) : hmgrentry :=
  mk_entry (link e) t (unique e) (instance e) (destroyed e).
Definition set_unique (u : Z) (e : hmgrentry) : hmgrentry :=
  mk_entry (link e) (type e) (u mod 2 ^ HMGRHANDLE_UNIQUE_BITS) (instance e) (destroyed e).
Definition set_instance (n : Z) (e : hmgrentry) : hmgrentry :=
  mk_entry (link e) (type e) (unique e) (n mod 2 ^ HMGRHANDLE_INSTANCE_BITS) (destroyed e).
Definition set_destroyed (d : Z) (e : hmgrentry) : hmgrentry :=
  mk_entry (link e) (type e) (unique e) (instance e) (d mod 2).

(** Contents of a freshly allocated entry buffer beyond the copied prefix
    (every field but [destroyed] is written by [expand_table]). *)
Definition fresh_entry : hmgrentry := mk_entry 0 0 0 0 0.

(** [struct hmgrtable] (the [process] tag is only passed to the memory
    accounting and the lock is outside this model). *)
Record hmgrtable := mk_table {
  entry_table : option (list hmgrentry);
  table_size : Z;
  free_handle_list_head : Z;
  free_handle_list_tail : Z;
  free_count : Z;
}.

Definition set_entry_table (a : list hmgrentry) (t : hmgrtable) : hmgrtable :=
  mk_table (Some a) (table_size t) (free_handle_list_head t)
    (free_handle_list_tail t) (free_count t).
Definition set_head (x : Z) (t : hmgrtable) : hmgrtable :=
  mk_table (entry_table t) (table_size t) (u32 x) (free_handle_list_tail t) (free_count t).
Definition set_tail (x : Z) (t : hmgrtable) : hmgrtable :=
  mk_table (entry_table t) (table_size t) (free_handle_list_head t) (u32 x) (free_count t).
Definition set_free_count (x : Z) (t : hmgrtable) : hmgrtable :=
  mk_table (entry_table t) (table_size t) (free_handle_list_head t)
    (free_handle_list_tail t) (u32 x).

(** Bounds-checked array access. *)
Fixpoint update_nth {A} (n : nat) (f : A -> A) (l : list A) : list A :=
  match l, n with
  | [], _ => []
  | x :: l', O => f x :: l'
  | x :: l', S n' => x :: update_nth n' f l'
  end.

Definition arr_get (a : list hmgrentry) (i : Z) : option hmgrentry :=
  if (0 <=? i) && (i <? Z.of_nat (length a)) then nth_error a (Z.to_nat i) else None.

Definition arr_upd (a : list hmgrentry) (i : Z) (f : hmgrentry -> hmgrentry)
  : option (list hmgrentry) :=
  if (0 <=? i) && (i <? Z.of_nat (length a))
  then Some (update_nth (Z.to_nat i) f a) else None.

Definition entry_at (t : hmgrtable) (i : Z) : option hmgrentry :=
  match entry_table t with Some a => arr_get a i | None => None end.

Definition modify_entry (t : hmgrtable) (i : Z) (f : hmgrentry -> hmgrentry)
  : option hmgrtable :=
  match entry_table t with
  | Some a => let? a' := arr_upd a i f in Some (set_entry_table a' t)
  | None => None
  end.

(** ** Validation *)

Definition is_handle_valid (table : hmgrtable) (h : Z) (ignore_destroyed : bool)
  (t : Z) : option bool :=
  let index := get_index h in
  let uniq := get_unique h in
  if table_size table <=? index then Some false else
  let? entry := entry_at table index in
  if negb (uniq =? unique entry) then Some false else
  if negb (destroyed entry =? 0) && negb ignore_destroyed then Some false else
  if type entry =? HMGRENTRY_TYPE_FREE then Some false else
  if negb (t =? HMGRENTRY_TYPE_FREE) && negb (t =? type entry) then Some false else
  Some true.

Definition hmgrtable_init : hmgrtable :=
  mk_table None 0 HMGRTABLE_INVALID_INDEX HMGRTABLE_INVALID_INDEX 0.

Definition hmgrtable_mark_destroyed (table : hmgrtable) (h : Z)
  : option (hmgrtable * bool) :=
  let? v := is_handle_valid table h false HMGRENTRY_TYPE_FREE in
  if negb v then Some (table, false) else
  let? table := modify_entry table (get_index h) (set_destroyed 1) in
  Some (table, true).

Definition hmgrtable_unmark_destroyed (table : hmgrtable) (h : Z)
  : option (hmgrtable * bool) :=
  let? v := is_handle_valid table h true HMGRENTRY_TYPE_FREE in
  if negb v then Some (table, true) else
  let? table := modify_entry table (get_index h) (set_destroyed 0) in
  Some (table, true).

(** ** Growth *)

(** The [while (table_index < new_table_size)] loop of [expand_table],
    run [n] times; returns the array and the final [table_index]. *)
Fixpoint expand_loop (n : nat) (a : list hmgrentry) (table_index prev_free_index : Z)
  : option (list hmgrentry * Z) :=
  match n with
  | O => Some (a, table_index)
  | S n' =>
      let? a := arr_upd a table_index (fun e =>
                  set_instance 0 (set_unique 1 (set_type HMGRENTRY_TYPE_FREE
                    (set_next_free_index (u32 (table_index + 1))
                      (set_prev_free_index prev_free_index e))))) in
      expand_loop n' a (u32 (table_index + 1)) table_index
  end.

(** [expand_table]; [mem_ok] is the outcome of [dxgmem_alloc]. *)
Definition expand_table (mem_ok : bool) (table : hmgrtable) (NumEntries : Z)
  : option (bool * hmgrtable) :=
  let tail_index := free_handle_list_tail table in
  let? tail_ok :=
    if free_count table =? 0 then Some true
    else let? e := entry_at table tail_index in
         Some (next_free_index e =? HMGRTABLE_INVALID_INDEX) in
  if negb tail_ok then Some (false, table) else
  let new_table_size := u32 (table_size table + table_size_increment) in
  let new_table_size :=
    if new_table_size <? NumEntries then NumEntries else new_table_size in
  if HMGRHANDLE_INDEX_MAX <? new_table_size then Some (false, table) else
  if negb mem_ok then Some (false, table) else
  let? (new_entry, head) :=
    match entry_table table with
    | Some old =>
        (* memcpy of table_size entries *)
        if (table_size table <=? Z.of_nat (length old))
           && (table_size table <=? new_table_size)
        then Some (firstn (Z.to_nat (table_size table)) old
                     ++ repeat fresh_entry (Z.to_nat (new_table_size - table_size table)),
                   free_handle_list_head table)
        else None
    | None => Some (repeat fresh_entry (Z.to_nat new_table_size), 0)
    end in
  let table_index := table_size table in
  let new_free_count := u32 (free_count table + table_size_increment) in
  let prev_free_index := free_handle_list_tail table in
  let? (new_entry, table_index) :=
    expand_loop (Z.to_nat (new_table_size - table_index)) new_entry
      table_index prev_free_index in
  let? new_entry := arr_upd new_entry (u32 (table_index - 1))
                      (set_next_free_index HMGRTABLE_INVALID_INDEX) in
  let? new_entry :=
    if free_count table =? 0 then Some new_entry
    else arr_upd new_entry (free_handle_list_tail table)
           (set_next_free_index (table_size table)) in
  let tail := u32 (new_table_size - 1) in
  let head := if head =? HMGRTABLE_INVALID_INDEX then table_size table else head in
  Some (true, mk_table (Some new_entry) new_table_size head tail new_free_count).

(** ** Allocation, assignment, release *)

(** Result of [hmgrtable_alloc_handle]: the C function returns 0 on every
    failure path ([AllocFail]) and the built handle at its end
    ([AllocOk]); both carry the table as the function leaves it. *)
Inductive alloc_result :=
| AllocFail (table : hmgrtable)
| AllocOk (table : hmgrtable) (h : Z).

Definition alloc_table (r : alloc_result) : hmgrtable :=
  match r with AllocFail t => t | AllocOk t _ => t end.

Definition alloc_return (r : alloc_result) : Z :=
  match r with AllocFail _ => 0 | AllocOk _ h => h end.

(** The writes [object], [type], [instance = 0], [destroyed = !make_valid]
    on the popped entry. *)
Definition alloc_entry_fields (obj t : Z) (make_valid : bool) (e : hmgrentry)
  : hmgrentry :=
  set_destroyed (if make_valid then 0 else 1) (set_instance 0 (set_type t (set_object obj e))).

Definition hmgrtable_alloc_handle (mem_ok : bool) (table : hmgrtable) (obj : Z)
  (t : Z) (make_valid : bool) : option alloc_result :=
  let? (grown, table) :=
    if free_count table <=? HMGRTABLE_MIN_FREE_ENTRIES
    then expand_table mem_ok table 0 else Some (true, table) in
  if negb grown then Some (AllocFail table) else
  if table_size table <=? free_handle_list_head table then Some (AllocFail table) else
  let index := free_handle_list_head table in
  let? entry := entry_at table index in
  if negb (type entry =? HMGRENTRY_TYPE_FREE) then Some (AllocFail table) else
  let table := set_head (next_free_index entry) table in
  let next := next_free_index entry in
  if negb (next =? free_handle_list_tail table) && (table_size table <=? next)
  then Some (AllocFail table) else
  let? table :=
    if negb (next =? free_handle_list_tail table)
    then modify_entry table next (set_prev_free_index HMGRTABLE_INVALID_INDEX)
    else Some table in
  let? e := entry_at table index in
  let uniq := unique e in
  let? table := modify_entry table index (alloc_entry_fields obj t make_valid) in
  let table := set_free_count (free_count table - 1) table in
  let? e := entry_at table index in
  Some (AllocOk table (build_handle index uniq (instance e))).

(** [hmgrtable_assign_handle]; returns the table and the status code. *)
Definition hmgrtable_assign_handle (mem_ok : bool) (table : hmgrtable) (obj : Z)
  (t : Z) (h : Z) : option (hmgrtable * Z) :=
  let index := get_index h in
  let uniq := get_unique h in
  if HMGRHANDLE_INDEX_MAX <=? index then Some (table, STATUS_INVALID_PARAMETER) else
  let? (grown, table) :=
    if table_size table <=? index then
      let new_size := u32 (index + HMGRTABLE_SIZE_INCREMENT) in
      let new_size :=
        if HMGRHANDLE_INDEX_MAX <? new_size then HMGRHANDLE_INDEX_MAX else new_size in
      expand_table mem_ok table new_size
    else Some (true, table) in
  if negb grown then Some (table, STATUS_NO_MEMORY) else
  let? entry := entry_at table index in
  if negb (type entry =? HMGRENTRY_TYPE_FREE) then Some (table, STATUS_INVALID_PARAMETER) else
  let at_tail := index =? free_handle_list_tail table in
  if negb at_tail && (table_size table <=? next_free_index entry)
  then Some (table, STATUS_INVALID_PARAMETER) else
  let? table :=
    if negb at_tail
    then modify_entry table (next_free_index entry)
           (set_prev_free_index (prev_free_index entry))
    else Some (set_tail (prev_free_index entry) table) in
  let? entry := entry_at table index in
  let at_head := index =? free_handle_list_head table in
  if negb at_head && (table_size table <=? prev_free_index entry)
  then Some (table, STATUS_INVALID_PARAMETER) else
  let? table :=
    if negb at_head
    then modify_entry table (prev_free_index entry)
           (set_next_free_index (next_free_index entry))
    else Some (set_head (next_free_index entry) table) in
  let? table := modify_entry table index (fun e =>
                  set_destroyed 0 (set_unique uniq (set_instance 0 (set_type t
                    (set_object obj (set_next_free_index HMGRTABLE_INVALID_INDEX
                      (set_prev_free_index HMGRTABLE_INVALID_INDEX e))))))) in
  Some (set_free_count (free_count table - 1) table, 0).

(** The field writes of [hmgrtable_free_handle] on the released entry, in
    the order of the source. *)
Definition free_entry_fields (e : hmgrentry) : hmgrentry :=
  let e := set_unique 1 e in
  let e := set_type HMGRENTRY_TYPE_FREE e in
  let e := set_destroyed 0 e in
  if negb (unique e =? HMGRHANDLE_UNIQUE_MAX)
  then set_unique (unique e + 1) e
  else set_unique 1 e.

Definition hmgrtable_free_handle (table : hmgrtable) (t : Z) (h : Z)
  : option hmgrtable :=
  let i := get_index h in
  (* Ignore the destroyed flag when checking the handle *)
  let? v := is_handle_valid table h true t in
  if negb v then Some table else
  let? table := modify_entry table i free_entry_fields in
  let table := set_free_count (free_count table + 1) table in
  (* Insert the index to the free list at the tail. *)
  let? table := modify_entry table i (fun e =>
                  set_prev_free_index (free_handle_list_tail table)
                    (set_next_free_index HMGRTABLE_INVALID_INDEX e)) in
  let? table := modify_entry table (free_handle_list_tail table)
                  (set_next_free_index i) in
  Some (set_tail i table).

(** ** Lookup *)

Definition hmgrtable_build_entry_handle (table : hmgrtable) (index : Z) : option Z :=
  let? e := entry_at table index in
  Some (build_handle index (unique e) (instance e)).

(** [NULL] is 0. *)
Definition hmgrtable_get_object (table : hmgrtable) (h : Z) : option Z :=
  let? v := is_handle_valid table h false HMGRENTRY_TYPE_FREE in
  if negb v then Some 0 else
  let? e := entry_at table (get_index h) in Some (object e).

Definition hmgrtable_get_object_by_type (table : hmgrtable) (t : Z) (h : Z) : option Z :=
  let? v := is_handle_valid table h false t in
  if negb v then Some 0 else
  let? e := entry_at table (get_index h) in Some (object e).

Definition hmgrtable_get_object_ignore_destroyed (table : hmgrtable) (h : Z) (t : Z)
  : option Z :=
  let? v := is_handle_valid table h true t in
  if negb v then Some 0 else
  let? e := entry_at table (get_index h) in Some (object e).

(** [hmgrtable_get_used_entry_count]: a [uint] subtraction. *)
Definition hmgrtable_get_used_entry_count (table : hmgrtable) : Z :=
  u32 (table_size table - free_count table).

(** [is_empty]: the free count equals the table size. *)
Definition is_empty (table : hmgrtable) : bool :=
  free_count table =? table_size table.

(** [hmgrtable_get_entry_object] and [hmgrtable_get_entry_type]: direct
    reads of the entry at [index] (the asserts have no effect). *)
Definition hmgrtable_get_entry_object (table : hmgrtable) (index : Z) : option Z :=
  let? e := entry_at table index in Some (object e).

Definition hmgrtable_get_entry_type (table : hmgrtable) (index : Z) : option Z :=
  let? e := entry_at table index in Some (type e).

Definition hmgrtable_get_object_type (table : hmgrtable) (h : Z) : option Z :=
  let? v := is_handle_valid table h false HMGRENTRY_TYPE_FREE in
  if negb v then Some HMGRENTRY_TYPE_FREE else
  hmgrtable_get_entry_type table (get_index h).

(** The [for (i = *index; i < tbl->table_size; i++)] loop of
    [hmgrtable_next_entry], with [fuel] bounding the iterations.  The
    result [Some None] is the return value [false]; [Some (Some (i', ty,
    h, o))] is [true] with the out-parameters [*index = i'], [*type = ty],
    [*handle = h], [*object = o]. *)
Fixpoint next_entry_loop (fuel : nat) (tbl : hmgrtable) (i : Z)
  : option (option (Z * Z * Z * Z)) :=
  match fuel with
  | O => Some None
  | S fuel' =>
      if table_size tbl <=? i then Some None else
      let? entry := entry_at tbl i in
      if negb (type entry =? HMGRENTRY_TYPE_FREE)
      then Some (Some (u32 (i + 1), type entry,
                       build_handle i (unique entry) (instance entry), object entry))
      else next_entry_loop fuel' tbl (u32 (i + 1))
  end.

(** [i] counts up by one from [*index] to [table_size], so the loop runs
    at most [table_size - *index] times. *)
Definition hmgrtable_next_entry (tbl : hmgrtable) (index : Z)
  : option (option (Z * Z * Z * Z)) :=
  next_entry_loop (Z.to_nat (table_size tbl - index)) tbl index.

(** ** Reachable tables *)

(** Tables reached from [hmgrtable_init] by the exported operations;
    [assign_ok] restricts the handles given to [hmgrtable_assign_handle]
    ([fun _ => True] for no restriction). *)
Inductive reach (assign_ok : Z -> Prop) : hmgrtable -> Prop :=
| reach_init : reach assign_ok hmgrtable_init
| reach_alloc t mem_ok obj ty mv r :
    reach assign_ok t ->
    hmgrtable_alloc_handle mem_ok t obj ty mv = Some r ->
    reach assign_ok (alloc_table r)
| reach_assign t mem_ok obj ty h t' st :
    reach assign_ok t -> assign_ok h ->
    hmgrtable_assign_handle mem_ok t obj ty h = Some (t', st) ->
    reach assign_ok t'
| reach_free t ty h t' :
    reach assign_ok t ->
    hmgrtable_free_handle t ty h = Some t' ->
    reach assign_ok t'
| reach_mark t h t' b :
    reach assign_ok t ->
    hmgrtable_mark_destroyed t h = Some (t', b) ->
    reach assign_ok t'
| reach_unmark t h t' b :
    reach assign_ok t ->
    hmgrtable_unmark_destroyed t h = Some (t', b) ->
    reach assign_ok t'.

(** Number of entries of type [HMGRENTRY_TYPE_FREE]. *)
Definition count_free (table : hmgrtable) : Z :=
  match entry_table table with
  | Some a =>
      Z.of_nat (length (filter (fun e => type e =? HMGRENTRY_TYPE_FREE)
                          (firstn (Z.to_nat (table_size table)) a)))
  | None => 0
  end.

(** ** Operation sequences *)

Inductive hmgr_op :=
| OpAlloc (mem_ok : bool) (obj ty : Z) (make_valid : bool)
| OpAssign (mem_ok : bool) (obj ty h : Z)
| OpFree (ty h : Z).

Definition run_op (table : hmgrtable) (op : hmgr_op) : option hmgrtable :=
  match op with
  | OpAlloc mem_ok obj ty mv =>
      let? r := hmgrtable_alloc_handle mem_ok table obj ty mv in Some (alloc_table r)
  | OpAssign mem_ok obj ty h =>
      let? (t, _) := hmgrtable_assign_handle mem_ok table obj ty h in Some t
  | OpFree ty h => hmgrtable_free_handle table ty h
  end.

Fixpoint run_ops (table : hmgrtable) (ops : list hmgr_op) : option hmgrtable :=
  match ops with
  | [] => Some table
  | op :: ops => let? table := run_op table op in run_ops table ops
  end.

Definition op_assign_ok (P : Z -> Prop) (op : hmgr_op) : Prop :=
  match op with OpAssign _ _ _ h => P h | _ => True end.

(** Empty table, [assign] at index 1 (one past the end), then [assign] of
    every other slot 0, 2, ..., 1024 created by that growth. *)
Definition fill_after_far_assign : list hmgr_op :=
  OpAssign true 1 1 (build_handle 1 1 0)
    :: map (fun i => OpAssign true 1 1 (build_handle (Z.of_nat i) 1 0))
           (0%nat :: seq 2 1023).

(** Well-formedness of a table: the size bound of [expand_table], a [uint]
    free count, an array of [table_size] entries whose [unique] lies in
    [lo..3]. *)
Definition wf (lo : Z) (t : hmgrtable) : Prop :=
  0 <= table_size t <= HMGRHANDLE_INDEX_MAX /\
  0 <= free_count t < 2 ^ 32 /\
  match entry_table t with
  | None => table_size t = 0
  | Some a => Z.of_nat (length a) = table_size t /\
              Forall (fun e => lo <= unique e <= 3) a
  end.

(** ** Codec lemmas *)

Lemma testbit_small_high (x k w : Z) :
  0 <= x < 2 ^ w -> 0 <= w <= k -> Z.testbit x k = false.
Proof.
  intros Hx Hw. rewrite <- (Z.mod_small x (2 ^ w)) by lia.
  apply Z.mod_pow2_bits_high. lia.
Qed.

Lemma testbit_u32 (x k : Z) :
  0 <= k -> Z.testbit (u32 x) k = (k <? 32) && Z.testbit x k.
Proof.
  intros Hk. unfold u32.
  destruct (Z.ltb_spec k 32).
  - rewrite Z.mod_pow2_bits_low by lia. reflexivity.
  - rewrite Z.mod_pow2_bits_high by lia. reflexivity.
Qed.

Lemma testbit_field_mask (w s k : Z) :
  0 <= w -> 0 <= s -> w + s <= 32 -> 0 <= k ->
  Z.testbit (u32 (Z.shiftl (Z.shiftl 1 w - 1) s)) k = (s <=? k) && (k <? s + w).
Proof.
  intros Hw Hs Hws Hk.
  rewrite testbit_u32 by lia.
  replace (Z.shiftl 1 w - 1) with (Z.ones w)
    by (rewrite Z.ones_equiv, Z.shiftl_1_l; lia).
  destruct (Z.leb_spec s k).
  - rewrite Z.shiftl_spec by lia. rewrite Z.testbit_ones_nonneg by lia.
    destruct (Z.ltb_spec k 32), (Z.ltb_spec (k - s) w), (Z.ltb_spec k (s + w));
      simpl; reflexivity || lia.
  - rewrite Z.shiftl_spec_low by lia. rewrite andb_false_r. reflexivity.
Qed.

Ltac simpl_cmp :=
  repeat match goal with
  | |- context [?a <? ?b] =>
      first [ rewrite (proj2 (Z.ltb_lt a b)) by lia
            | rewrite (proj2 (Z.ltb_ge a b)) by lia ]
  | |- context [?a <=? ?b] =>
      first [ rewrite (proj2 (Z.leb_le a b)) by lia
            | rewrite (proj2 (Z.leb_gt a b)) by lia ]
  end;
  simpl; rewrite ?andb_false_r, ?andb_true_r, ?orb_false_r, ?orb_false_l.

Ltac unfold_codec :=
  unfold get_index, get_unique, get_instance, build_handle,
    HMGRHANDLE_INDEX_MASK, HMGRHANDLE_UNIQUE_MASK, HMGRHANDLE_INSTANCE_MASK,
    HMGRHANDLE_UNIQUE_SHIFT, HMGRHANDLE_INDEX_SHIFT, HMGRHANDLE_INSTANCE_SHIFT,
    HMGRHANDLE_INDEX_BITS, HMGRHANDLE_UNIQUE_BITS, HMGRHANDLE_INSTANCE_BITS.

Ltac codec_bits k :=
  apply Z.bits_inj'; intros k Hk; unfold_codec;
  rewrite ?Z.shiftr_spec by lia;
  rewrite !Z.land_spec, !Z.lor_spec, !Z.land_spec;
  rewrite !testbit_field_mask by lia;
  rewrite !testbit_u32 by lia;
  rewrite !Z.shiftl_spec by lia.

Ltac finish_bits :=
  simpl_cmp;
  repeat match goal with
  | |- context [Z.testbit ?x ?m] => rewrite (Z.testbit_neg_r x m) by lia
  end;
  rewrite ?andb_false_r, ?andb_false_l, ?orb_false_r, ?orb_false_l,
    ?andb_true_r, ?andb_true_l.

Lemma get_index_build_handle (i g n : Z) :
  0 <= i < 2 ^ 24 -> 0 <= g < 4 -> 0 <= n < 64 ->
  get_index (build_handle i g n) = i.
Proof.
  intros Hi Hg Hn. codec_bits k.
  destruct (Z.ltb_spec k 24); finish_bits.
  - f_equal; lia.
  - symmetry. apply (testbit_small_high i k 24); lia.
Qed.

Lemma get_unique_build_handle (i g n : Z) :
  0 <= i < 2 ^ 24 -> 0 <= g < 4 -> 0 <= n < 64 ->
  get_unique (build_handle i g n) = g.
Proof.
  intros Hi Hg Hn. codec_bits k.
  destruct (Z.ltb_spec k 2); finish_bits.
  - f_equal; lia.
  - symmetry. apply (testbit_small_high g k 2); lia.
Qed.

Lemma get_instance_build_handle (i g n : Z) :
  0 <= i < 2 ^ 24 -> 0 <= g < 4 -> 0 <= n < 64 ->
  get_instance (build_handle i g n) = n.
Proof.
  intros Hi Hg Hn. codec_bits k.
  destruct (Z.ltb_spec k 6); finish_bits.
  - f_equal; lia.
  - symmetry. apply (testbit_small_high n k 6); lia.
Qed.

Lemma get_unique_mod (h : Z) : get_unique h = Z.shiftr h 30 mod 2 ^ 2.
Proof.
  apply Z.bits_inj'; intros k Hk. unfold_codec.
  rewrite Z.shiftr_spec, Z.land_spec, testbit_field_mask by lia.
  destruct (Z.ltb_spec k 2).
  - rewrite Z.mod_pow2_bits_low, Z.shiftr_spec by lia. simpl_cmp; try reflexivity; f_equal; lia.
  - rewrite Z.mod_pow2_bits_high by lia. simpl_cmp; reflexivity.
Qed.

Lemma get_index_mod (h : Z) : get_index h = Z.shiftr h 6 mod 2 ^ 24.
Proof.
  apply Z.bits_inj'; intros k Hk. unfold_codec.
  rewrite Z.shiftr_spec, Z.land_spec, testbit_field_mask by lia.
  destruct (Z.ltb_spec k 24).
  - rewrite Z.mod_pow2_bits_low, Z.shiftr_spec by lia. simpl_cmp; try reflexivity; f_equal; lia.
  - rewrite Z.mod_pow2_bits_high by lia. simpl_cmp; reflexivity.
Qed.

Lemma get_unique_range (h : Z) : 0 <= get_unique h < 4.
Proof. rewrite get_unique_mod. apply Z.mod_pos_bound. lia. Qed.

Lemma get_index_range (h : Z) : 0 <= get_index h < 2 ^ 24.
Proof. rewrite get_index_mod. apply Z.mod_pos_bound. lia. Qed.

(** ** Array lemmas *)

Lemma length_update_nth {A} (n : nat) (f : A -> A) (l : list A) :
  length (update_nth n f l) = length l.
Proof.
  revert n; induction l as [|x l IH]; intros [|n]; simpl; auto.
Qed.

Lemma nth_error_update_nth_same {A} (n : nat) (f : A -> A) (l : list A) :
  nth_error (update_nth n f l) n = option_map f (nth_error l n).
Proof.
  revert n; induction l as [|x l IH]; intros [|n]; simpl; auto.
Qed.

Lemma nth_error_update_nth_other {A} (n m : nat) (f : A -> A) (l : list A) :
  m <> n -> nth_error (update_nth n f l) m = nth_error l m.
Proof.
  revert n m; induction l as [|x l IH]; intros [|n] [|m] Hmn; simpl;
    try congruence; auto.
Qed.

Lemma Forall_update_nth {A} (P : A -> Prop) (n : nat) (f : A -> A) (l : list A) :
  Forall P l -> (forall x, P x -> P (f x)) -> Forall P (update_nth n f l).
Proof.
  intros Hl Hf. revert n; induction Hl as [|x l Hx Hl IH]; intros [|n]; simpl;
    constructor; auto.
Qed.

Lemma arr_upd_Some (a a' : list hmgrentry) (i : Z) f :
  arr_upd a i f = Some a' ->
  0 <= i < Z.of_nat (length a) /\ a' = update_nth (Z.to_nat i) f a.
Proof.
  unfold arr_upd. destruct (Z.leb_spec 0 i), (Z.ltb_spec i (Z.of_nat (length a)));
    simpl; intros Hs; inversion Hs; subst; auto; lia.
Qed.

Lemma arr_get_upd (a a' : list hmgrentry) (i j : Z) f :
  arr_upd a i f = Some a' ->
  arr_get a' j = if i =? j then option_map f (arr_get a j) else arr_get a j.
Proof.
  intros H. apply arr_upd_Some in H as [Hi ->]. unfold arr_get.
  rewrite length_update_nth.
  destruct (Z.eqb_spec i j).
  - subst j. destruct (Z.leb_spec 0 i), (Z.ltb_spec i (Z.of_nat (length a)));
      simpl; try lia. apply nth_error_update_nth_same.
  - destruct (Z.leb_spec 0 j), (Z.ltb_spec j (Z.of_nat (length a))); simpl; auto.
    apply nth_error_update_nth_other. lia.
Qed.

Lemma entry_at_modify (t t' : hmgrtable) (i j : Z) f :
  modify_entry t i f = Some t' ->
  entry_at t' j = if i =? j then option_map f (entry_at t j) else entry_at t j.
Proof.
  unfold modify_entry, entry_at. destruct (entry_table t) as [a|]; [|discriminate].
  destruct (arr_upd a i f) as [a'|] eqn:E; [|discriminate].
  intros H; inversion H; subst; simpl. eapply arr_get_upd; eauto.
Qed.

Lemma modify_entry_fields (t t' : hmgrtable) (i : Z) f :
  modify_entry t i f = Some t' ->
  table_size t' = table_size t /\ free_count t' = free_count t /\
  free_handle_list_head t' = free_handle_list_head t /\
  free_handle_list_tail t' = free_handle_list_tail t.
Proof.
  unfold modify_entry. destruct (entry_table t) as [a|]; [|discriminate].
  destruct (arr_upd a i f); [|discriminate]. intros H; inversion H; subst.
  simpl; auto.
Qed.

Lemma modify_entry_Some (t t' : hmgrtable) (i : Z) f :
  modify_entry t i f = Some t' ->
  exists a a', entry_table t = Some a /\ arr_upd a i f = Some a' /\
               t' = set_entry_table a' t.
Proof.
  unfold modify_entry. destruct (entry_table t) as [a|]; [|discriminate].
  destruct (arr_upd a i f) as [a'|] eqn:E; [|discriminate].
  intros H; inversion H; subst. eauto.
Qed.

Lemma entry_at_Some (t : hmgrtable) (i : Z) e :
  entry_at t i = Some e ->
  exists a, entry_table t = Some a /\ 0 <= i < Z.of_nat (length a) /\
            nth_error a (Z.to_nat i) = Some e.
Proof.
  unfold entry_at, arr_get. destruct (entry_table t) as [a|]; [|discriminate].
  destruct (Z.leb_spec 0 i), (Z.ltb_spec i (Z.of_nat (length a))); simpl;
    try discriminate. eauto.
Qed.
Lemma expand_table_inv mem_ok t n b t' :
  expand_table mem_ok t n = Some (b, t') ->
  (b = false /\ t' = t) \/
  (b = true /\ mem_ok = true /\
   exists new_size new_entry0 head new_entry1 idx new_entry2 new_entry3,
     new_size = (if u32 (table_size t + table_size_increment) <? n then n
                 else u32 (table_size t + table_size_increment)) /\
     new_size <= HMGRHANDLE_INDEX_MAX /\
     match entry_table t with
     | Some old => table_size t <= Z.of_nat (length old) /\ table_size t <= new_size /\
         new_entry0 = firstn (Z.to_nat (table_size t)) old
                        ++ repeat fresh_entry (Z.to_nat (new_size - table_size t)) /\
         head = free_handle_list_head t
     | None => new_entry0 = repeat fresh_entry (Z.to_nat new_size) /\ head = 0
     end /\
     expand_loop (Z.to_nat (new_size - table_size t)) new_entry0 (table_size t)
       (free_handle_list_tail t) = Some (new_entry1, idx) /\
     arr_upd new_entry1 (u32 (idx - 1)) (set_next_free_index HMGRTABLE_INVALID_INDEX)
       = Some new_entry2 /\
     (if free_count t =? 0 then new_entry3 = new_entry2
      else arr_upd new_entry2 (free_handle_list_tail t)
             (set_next_free_index (table_size t)) = Some new_entry3) /\
     t' = mk_table (Some new_entry3) new_size
            (if head =? HMGRTABLE_INVALID_INDEX then table_size t else head)
            (u32 (new_size - 1)) (u32 (free_count t + table_size_increment))).
Proof.
  unfold expand_table. intros H.
  destruct (if free_count t =? 0 then _ else _) as [tail_ok|]; [|discriminate].
  destruct tail_ok; simpl in H; [|inversion H; auto].
  match type of H with context [if HMGRHANDLE_INDEX_MAX <? ?x then _ else _] =>
    set (ns := x) in H end.
  destruct (Z.ltb_spec HMGRHANDLE_INDEX_MAX ns); [inversion H; auto|].
  destruct mem_ok; simpl in H; [|inversion H; auto].
  match type of H with context [match ?m with Some _ => _ | None => None end] =>
    destruct m as [[a0 hd]|] eqn:E0; [|discriminate] end.
  destruct (expand_loop _ a0 _ _) as [[a1 idx]|] eqn:E1; [|discriminate].
  destruct (arr_upd a1 _ _) as [a2|] eqn:E2; [|discriminate].
  destruct (free_count t =? 0) eqn:Efc.
  - inversion H; subst. right. split; [reflexivity|split; [reflexivity|]].
    exists ns, a0, hd, a1, idx, a2, a2. repeat split; auto.
    destruct (entry_table t) as [old|].
    + destruct (_ && _) eqn:Ec; [|discriminate]. inversion E0; subst.
      apply andb_prop in Ec as [Ec1 Ec2]. apply Z.leb_le in Ec1, Ec2. auto.
    + inversion E0; auto.
  - destruct (arr_upd a2 _ _) as [a3|] eqn:E3; [|discriminate].
    inversion H; subst. right. split; [reflexivity|split; [reflexivity|]].
    exists ns, a0, hd, a1, idx, a2, a3. repeat split; auto.
    destruct (entry_table t) as [old|].
    + destruct (_ && _) eqn:Ec; [|discriminate]. inversion E0; subst.
      apply andb_prop in Ec as [Ec1 Ec2]. apply Z.leb_le in Ec1, Ec2. auto.
    + inversion E0; auto.
Qed.

Lemma Forall_nth_error {A} (P : A -> Prop) (l : list A) :
  (forall k x, nth_error l k = Some x -> P x) -> Forall P l.
Proof.
  intros H. apply Forall_forall. intros x Hx.
  apply In_nth_error in Hx as [k Hk]. eauto.
Qed.

Lemma nth_error_Forall {A} (P : A -> Prop) (l : list A) k x :
  Forall P l -> nth_error l k = Some x -> P x.
Proof.
  intros Hl Hk. rewrite Forall_forall in Hl. apply Hl. eapply nth_error_In; eauto.
Qed.

Lemma Forall_arr_upd (P : hmgrentry -> Prop) a a' i f :
  arr_upd a i f = Some a' -> Forall P a -> (forall x, P x -> P (f x)) ->
  Forall P a' /\ length a' = length a.
Proof.
  intros H Ha Hf. apply arr_upd_Some in H as [_ ->].
  split; [apply Forall_update_nth; auto | apply length_update_nth].
Qed.

Section ExpandLoop.

Variable P : hmgrentry -> Prop.
Hypothesis P_loop_entry : forall table_index prev e,
  P (set_instance 0 (set_unique 1 (set_type HMGRENTRY_TYPE_FREE
       (set_next_free_index (u32 (table_index + 1))
         (set_prev_free_index prev e))))).

Lemma expand_loop_inv (n : nat) : forall a idx prev a' idx',
  expand_loop n a idx prev = Some (a', idx') ->
  0 <= idx -> Z.of_nat (length a) < 2 ^ 32 ->
  idx + Z.of_nat n = Z.of_nat (length a) ->
  (forall k x, (k < Z.to_nat idx)%nat -> nth_error a k = Some x -> P x) ->
  Forall P a' /\ length a' = length a.
Proof.
  induction n as [|n IH]; intros a idx prev a' idx' H Hidx Hlen Hn Hpre; simpl in H.
  - inversion H; subst. split; auto. apply Forall_nth_error. intros k x Hk.
    apply (Hpre k x); auto.
    pose proof (proj1 (nth_error_Some _ k) ltac:(rewrite Hk; discriminate)). lia.
  - destruct (arr_upd a idx _) as [a1|] eqn:E; [|discriminate].
    pose proof (arr_upd_Some _ _ _ _ E) as [Hi Ha1].
    assert (Hl1 : length a1 = length a) by (subst a1; apply length_update_nth).
    assert (Hu : u32 (idx + 1) = idx + 1)
      by (unfold u32; apply Z.mod_small; lia).
    rewrite Hu in H.
    destruct (IH a1 (idx + 1) idx a' idx' H) as [HF HL]; try lia.
    + intros k x Hk Hx. subst a1.
      destruct (Nat.eq_dec k (Z.to_nat idx)) as [->|Hne].
      * rewrite nth_error_update_nth_same in Hx.
        destruct (nth_error a (Z.to_nat idx)); inversion Hx; subst. apply P_loop_entry.
      * rewrite nth_error_update_nth_other in Hx by auto.
        apply (Hpre k x); auto. lia.
    + split; congruence.
Qed.

End ExpandLoop.

Definition unique_in (lo : Z) (e : hmgrentry) : Prop := lo <= unique e <= 3.

Lemma unique_set_unique (u : Z) e : unique (set_unique u e) = u mod 4.
Proof. reflexivity. Qed.

Lemma INDEX_MAX_val : HMGRHANDLE_INDEX_MAX = 16777215.
Proof. reflexivity. Qed.

Lemma u32_range (x : Z) : 0 <= u32 x < 2 ^ 32.
Proof. unfold u32. apply Z.mod_pos_bound. lia. Qed.

Lemma expand_table_wf (lo : Z) mem_ok t n b t' :
  lo <= 1 -> wf lo t -> expand_table mem_ok t n = Some (b, t') -> wf lo t'.
Proof.
  intros Hlo Hwf H. apply expand_table_inv in H as [[_ ->]|[_ [_ H]]]; auto.
  destruct H as (ns & a0 & hd & a1 & idx & a2 & a3 & Hns & Hmax & Ha0 & Hl & H2 & H3 & ->).
  destruct Hwf as (Hsz & Hfc & Hent).
  assert (Hns0 : 0 <= ns).
  { subst ns. pose proof (u32_range (table_size t + table_size_increment)).
    destruct (Z.ltb_spec (u32 (table_size t + table_size_increment)) n); lia. }
  assert (Hlen0 : Z.of_nat (length a0) = ns /\ table_size t <= ns /\
          (forall k x, (k < Z.to_nat (table_size t))%nat -> nth_error a0 k = Some x ->
                       unique_in lo x)).
  { destruct (entry_table t) as [old|].
    - destruct Hent as [Hlold Hfold]. destruct Ha0 as (Hs1 & Hs2 & -> & _).
      split; [|split; [lia|]].
      + rewrite length_app, repeat_length, length_firstn. lia.
      + intros k x Hk Hx. rewrite nth_error_app1 in Hx
          by (rewrite length_firstn; lia).
        rewrite nth_error_firstn in Hx.
        destruct (Nat.ltb_spec k (Z.to_nat (table_size t))); [|discriminate].
        exact (nth_error_Forall _ _ _ _ Hfold Hx).
    - destruct Ha0 as [-> _]. split; [|split; [lia|]].
      + rewrite repeat_length. lia.
      + intros k x Hk. lia. }
  destruct Hlen0 as (Hlen0 & Hsn & Hpre).
  rewrite INDEX_MAX_val in *.
  assert (HX := expand_loop_inv (unique_in lo)
              ltac:(intros; unfold unique_in; cbn [unique set_instance];
                    rewrite unique_set_unique; change (1 mod 4) with 1; lia)
              _ _ _ _ _ _ Hl ltac:(lia) ltac:(lia) ltac:(lia) Hpre).
  destruct HX as [HF1 HL1].
  destruct (Forall_arr_upd (unique_in lo) _ _ _ _ H2 HF1 ltac:(auto)) as [HF2 HL2].
  assert (HF3 : Forall (unique_in lo) a3 /\ length a3 = length a2).
  { destruct (free_count t =? 0); [subst; auto|].
    exact (Forall_arr_upd (unique_in lo) _ _ _ _ H3 HF2 ltac:(auto)). }
  destruct HF3 as [HF3 HL3].
  unfold wf; simpl. rewrite INDEX_MAX_val. split; [lia|]. split; [apply u32_range|].
  split; [lia | exact HF3].
Qed.

Lemma set_head_wf lo x t : wf lo t -> wf lo (set_head x t).
Proof. unfold wf; simpl; auto. Qed.

Lemma set_tail_wf lo x t : wf lo t -> wf lo (set_tail x t).
Proof. unfold wf; simpl; auto. Qed.

Lemma set_free_count_wf lo x t : wf lo t -> wf lo (set_free_count x t).
Proof.
  unfold wf; simpl. intros (H1 & _ & H3). split; [auto|]. split; [apply u32_range|auto].
Qed.

Lemma modify_entry_wf lo t t' i f :
  wf lo t -> modify_entry t i f = Some t' ->
  (forall x, unique_in lo x -> unique_in lo (f x)) -> wf lo t'.
Proof.
  intros (Hs & Hfc & Hent) H Hf.
  apply modify_entry_Some in H as (a & a' & Ha & Hu & ->).
  rewrite Ha in Hent. destruct Hent as [Hl HF].
  destruct (Forall_arr_upd (unique_in lo) _ _ _ _ Hu HF Hf) as [HF' Hl'].
  unfold wf; simpl. repeat split; try lia; auto.
Qed.

Ltac link_only := intros ? Hx; unfold unique_in in *; simpl; exact Hx.

Lemma alloc_wf lo mem_ok t obj ty mv r :
  lo <= 1 -> wf lo t -> hmgrtable_alloc_handle mem_ok t obj ty mv = Some r ->
  wf lo (alloc_table r).
Proof.
  intros Hlo Hwf H. unfold hmgrtable_alloc_handle in H.
  destruct (if free_count t <=? _ then _ else _) as [[grown t1]|] eqn:E1;
    [|discriminate].
  assert (Hwf1 : wf lo t1).
  { destruct (free_count t <=? _); [exact (expand_table_wf lo _ _ _ _ _ Hlo Hwf E1)|].
    inversion E1; subst; auto. }
  clear Hwf E1.
  destruct grown; [|inversion H; subst; exact Hwf1].
  destruct (table_size t1 <=? _); [inversion H; subst; exact Hwf1|].
  destruct (entry_at t1 _) as [e|]; [|discriminate].
  destruct (negb (type e =? HMGRENTRY_TYPE_FREE)); [inversion H; subst; exact Hwf1|].
  destruct (negb (next_free_index e =? _) && _); [inversion H; subst; exact (set_head_wf _ _ _ Hwf1)|].
  match type of H with
  | context [match (if ?c then ?x else ?y) with Some _ => _ | None => None end] =>
      destruct (if c then x else y) as [t2|] eqn:E2; [|discriminate]
  end.
  assert (Hwf2 : wf lo t2).
  { destruct (negb (next_free_index e =? _)).
    - exact (modify_entry_wf _ _ _ _ _ (set_head_wf _ _ _ Hwf1) E2 ltac:(link_only)).
    - inversion E2; subst. exact (set_head_wf _ _ _ Hwf1). }
  destruct (entry_at t2 _) as [e2|]; [|discriminate].
  destruct (modify_entry t2 _ _) as [t3|] eqn:E3; [|discriminate].
  destruct (entry_at _ _) as [e4|]; [|discriminate].
  inversion H; subst.
  exact (set_free_count_wf _ _ _ (modify_entry_wf _ _ _ _ _ Hwf2 E3 ltac:(link_only))).
Qed.

Lemma free_entry_fields_unique e : unique (free_entry_fields e) = 2.
Proof. reflexivity. Qed.

Lemma assign_wf lo mem_ok t obj ty h t' st :
  lo <= 1 -> lo <= get_unique h -> wf lo t ->
  hmgrtable_assign_handle mem_ok t obj ty h = Some (t', st) -> wf lo t'.
Proof.
  intros Hlo Hh Hwf H. unfold hmgrtable_assign_handle in H.
  destruct (HMGRHANDLE_INDEX_MAX <=? get_index h); [inversion H; subst; exact Hwf|].
  destruct (if table_size t <=? get_index h then _ else _) as [[grown t1]|] eqn:E1;
    [|discriminate].
  assert (Hwf1 : wf lo t1).
  { destruct (table_size t <=? get_index h);
      [exact (expand_table_wf lo _ _ _ _ _ Hlo Hwf E1)|].
    inversion E1; subst; auto. }
  clear Hwf E1.
  destruct grown; [|inversion H; subst; exact Hwf1].
  destruct (entry_at t1 (get_index h)) as [e|]; [|discriminate].
  destruct (negb (type e =? HMGRENTRY_TYPE_FREE)); [inversion H; subst; exact Hwf1|].
  destruct (negb (get_index h =? _) && _); [inversion H; subst; exact Hwf1|].
  match type of H with
  | context [match (if ?c then ?x else ?y) with Some _ => _ | None => None end] =>
      destruct (if c then x else y) as [t2|] eqn:E2; [|discriminate]
  end.
  assert (Hwf2 : wf lo t2).
  { destruct (negb (get_index h =? _)).
    - exact (modify_entry_wf _ _ _ _ _ Hwf1 E2 ltac:(link_only)).
    - inversion E2; subst. exact (set_tail_wf _ _ _ Hwf1). }
  clear Hwf1 E2.
  destruct (entry_at t2 (get_index h)) as [e2|]; [|discriminate].
  destruct (negb (get_index h =? _) && _); [inversion H; subst; exact Hwf2|].
  match type of H with
  | context [match (if ?c then ?x else ?y) with Some _ => _ | None => None end] =>
      destruct (if c then x else y) as [t3|] eqn:E3; [|discriminate]
  end.
  assert (Hwf3 : wf lo t3).
  { destruct (negb (get_index h =? _)).
    - exact (modify_entry_wf _ _ _ _ _ Hwf2 E3 ltac:(link_only)).
    - inversion E3; subst. exact (set_head_wf _ _ _ Hwf2). }
  clear Hwf2 E3.
  destruct (modify_entry t3 _ _) as [t4|] eqn:E4; [|discriminate].
  inversion H; subst. apply set_free_count_wf.
  refine (modify_entry_wf _ _ _ _ _ Hwf3 E4 _).
  intros x _. unfold unique_in. cbn [unique set_destroyed]. rewrite unique_set_unique.
  pose proof (get_unique_range h). rewrite Z.mod_small by lia. lia.
Qed.

Lemma free_wf lo t ty h t' :
  lo <= 1 -> wf lo t -> hmgrtable_free_handle t ty h = Some t' -> wf lo t'.
Proof.
  intros Hlo Hwf H. unfold hmgrtable_free_handle in H.
  destruct (is_handle_valid t h true ty) as [[|]|]; [|inversion H; subst; exact Hwf|discriminate].
  destruct (modify_entry t _ free_entry_fields) as [t1|] eqn:E1; [|discriminate].
  assert (Hwf1 : wf lo t1).
  { refine (modify_entry_wf _ _ _ _ _ Hwf E1 _).
    intros x _. unfold unique_in. rewrite free_entry_fields_unique. lia. }
  destruct (modify_entry (set_free_count _ t1) _ _) as [t2|] eqn:E2; [|discriminate].
  destruct (modify_entry t2 _ _) as [t3|] eqn:E3; [|discriminate].
  inversion H; subst. apply set_tail_wf.
  refine (modify_entry_wf _ _ _ _ _ _ E3 ltac:(link_only)).
  exact (modify_entry_wf _ _ _ _ _ (set_free_count_wf _ _ _ Hwf1) E2 ltac:(link_only)).
Qed.

Lemma mark_destroyed_wf lo t h t' b :
  wf lo t -> hmgrtable_mark_destroyed t h = Some (t', b) -> wf lo t'.
Proof.
  intros Hwf H. unfold hmgrtable_mark_destroyed in H.
  destruct (is_handle_valid t h false _) as [[|]|]; [|inversion H; subst; exact Hwf|discriminate].
  destruct (modify_entry t _ _) as [t1|] eqn:E1; [|discriminate].
  inversion H; subst. exact (modify_entry_wf _ _ _ _ _ Hwf E1 ltac:(link_only)).
Qed.

Lemma unmark_destroyed_wf lo t h t' b :
  wf lo t -> hmgrtable_unmark_destroyed t h = Some (t', b) -> wf lo t'.
Proof.
  intros Hwf H. unfold hmgrtable_unmark_destroyed in H.
  destruct (is_handle_valid t h true _) as [[|]|]; [|inversion H; subst; exact Hwf|discriminate].
  destruct (modify_entry t _ _) as [t1|] eqn:E1; [|discriminate].
  inversion H; subst. exact (modify_entry_wf _ _ _ _ _ Hwf E1 ltac:(link_only)).
Qed.

Lemma reach_wf (P : Z -> Prop) (lo : Z) t :
  lo <= 1 -> (forall h, P h -> lo <= get_unique h) -> reach P t -> wf lo t.
Proof.
  intros Hlo HP Hr. induction Hr.
  - unfold wf; simpl. rewrite INDEX_MAX_val. lia.
  - eapply alloc_wf; eassumption.
  - eapply assign_wf; eauto.
  - eapply free_wf; eassumption.
  - eapply mark_destroyed_wf; eassumption.
  - eapply unmark_destroyed_wf; eassumption.
Qed.

Ltac step_in H :=
  match type of H with
  | (if ?c then _ else _) = _ => let E := fresh "E" in destruct c eqn:E
  | (match ?m with Some _ => _ | None => None end) = _ =>
      let E := fresh "E" in destruct m eqn:E
  | (match ?p with pair _ _ => _ end) = _ => destruct p eqn:?
  | None = Some _ => discriminate H
  | Some (AllocFail _) = Some (AllocOk _ _) => discriminate H
  | Some (AllocOk _ _) = Some (AllocOk _ _) =>
      injection H; clear H; intros; subst
  end; cbn beta iota zeta in H.

Lemma entry_at_set_free_count x t i :
  entry_at (set_free_count x t) i = entry_at t i.
Proof. reflexivity. Qed.

Lemma entry_at_set_head x t i : entry_at (set_head x t) i = entry_at t i.
Proof. reflexivity. Qed.

Lemma alloc_ok_inv mem_ok t obj ty mv t' h :
  hmgrtable_alloc_handle mem_ok t obj ty mv = Some (AllocOk t' h) ->
  exists t1 idx e,
    (if free_count t <=? HMGRTABLE_MIN_FREE_ENTRIES
     then expand_table mem_ok t 0 else Some (true, t)) = Some (true, t1) /\
    0 <= idx < table_size t1 /\
    table_size t' = table_size t1 /\
    free_count t' = u32 (free_count t1 - 1) /\
    entry_at t' idx = Some (alloc_entry_fields obj ty mv e) /\
    h = build_handle idx (unique e) 0.
Proof.
  intros H. unfold hmgrtable_alloc_handle in H.
  repeat step_in H.
  destruct b; [|discriminate E0].
  exists h0, (free_handle_list_head h0), h3.
  pose proof (modify_entry_fields _ _ _ _ E7) as (Hs3 & Hf3 & _).
  pose proof (entry_at_modify _ _ _ (free_handle_list_head h0) _ E7) as He3.
  rewrite Z.eqb_refl, E6 in He3. cbn [option_map] in He3.
  rewrite entry_at_set_free_count, He3 in E8. injection E8 as <-.
  assert (Hs2 : table_size h2 = table_size h0 /\ free_count h2 = free_count h0).
  { destruct (negb _) in E5.
    - apply modify_entry_fields in E5 as (? & ? & _). cbn [table_size free_count set_head] in *. lia.
    - injection E5 as <-. cbn [table_size free_count set_head]. auto. }
  pose proof (entry_at_Some _ _ _ E2) as (? & _ & ? & _).
  apply Z.leb_gt in E1.
  split; [reflexivity|]. split; [lia|].
  cbn [table_size free_count set_free_count]. rewrite Hs3, Hf3.
  split; [lia|]. split; [f_equal; lia|].
  split; [rewrite entry_at_set_free_count; exact He3|].
  f_equal.
Qed.

Lemma reach_wf0 (P : Z -> Prop) t : reach P t -> wf 0 t.
Proof.
  apply reach_wf; [lia|]. intros h _. apply get_unique_range.
Qed.

Lemma entry_unique_wf lo t i e :
  wf lo t -> entry_at t i = Some e -> lo <= unique e <= 3.
Proof.
  intros (_ & _ & Hent) He. apply entry_at_Some in He as (a & Ha & _ & Hn).
  rewrite Ha in Hent. destruct Hent as [_ HF].
  exact (nth_error_Forall _ _ _ _ HF Hn).
Qed.

(** Every operation sequence whose assigns satisfy [P] stays among the
    tables of [reach P]. *)
Lemma run_ops_reach (P : Z -> Prop) ops : forall t t',
  reach P t -> Forall (op_assign_ok P) ops -> run_ops t ops = Some t' -> reach P t'.
Proof.
  induction ops as [|op ops IH]; intros t t' Hr Hops H; cbn [run_ops] in H.
  - injection H as <-. exact Hr.
  - inversion Hops as [|? ? Hop Hops']; subst.
    destruct (run_op t op) as [t1|] eqn:E; [|discriminate].
    apply (IH t1); auto.
    destruct op as [mem_ok obj ty mv|mem_ok obj ty h|ty h]; cbn [run_op] in E.
    + destruct (hmgrtable_alloc_handle mem_ok t obj ty mv) as [r|] eqn:Ea;
        [|discriminate].
      injection E as <-. exact (reach_alloc _ _ _ _ _ _ _ Hr Ea).
    + destruct (hmgrtable_assign_handle mem_ok t obj ty h) as [[t2 st]|] eqn:Ea;
        [|discriminate].
      injection E as <-. exact (reach_assign _ _ _ _ _ _ _ _ Hr Hop Ea).
    + exact (reach_free _ _ _ _ _ Hr E).
Qed.

Lemma Forall_op_assign_ok_true ops : Forall (op_assign_ok (fun _ => True)) ops.
Proof.
  induction ops as [|op ops IH]; constructor; auto. destruct op; exact I.
Qed.

(** ** Claims *)

(** C1 (handle release advances the generation by one).  On the failing
    input the generation of slot 0 is 2 before the release of a valid
    handle and still 2 after it: [hmgrtable_free_handle] first stores 1
    into [unique], so the increment that follows always yields 2. *)
Theorem free_generation_stays_2 :
  match run_ops hmgrtable_init [OpAssign true 7 1 (build_handle 0 2 0)] with
  | Some t =>
      reach (fun _ => True) t /\
      option_map unique (entry_at t 0) = Some 2 /\
      is_handle_valid t (build_handle 0 2 0) true 1 = Some true /\
      match hmgrtable_free_handle t 1 (build_handle 0 2 0) with
      | Some t' => option_map unique (entry_at t' 0) = Some 2
      | None => False
      end
  | None => False
  end.
Proof.
  destruct (run_ops hmgrtable_init _) as [t|] eqn:E.
  - split; [exact (run_ops_reach _ _ _ _ (reach_init _) (Forall_op_assign_ok_true _) E)|].
    vm_compute in E. injection E as <-. vm_compute. auto.
  - vm_compute in E. discriminate.
Qed.

(** C2 (lookup after allocation), counterexample: an allocation with
    [make_valid = false] succeeds, but the lookup of its handle by type
    returns NULL instead of the object 42. *)
Lemma alloc_not_valid_get_object_null :
  match hmgrtable_alloc_handle true hmgrtable_init 42 1 false with
  | Some (AllocOk t' h) =>
      hmgrtable_get_object_by_type t' 1 h = Some 0 /\
      hmgrtable_get_object_by_type t' 1 h <> Some 42
  | _ => False
  end.
Proof. vm_compute. split; [reflexivity | discriminate]. Qed.

(** C2 (amended): in every reachable table, a successful allocation of a
    64-bit object [o] with a non-free type [ty] and [make_valid = true]
    returns a handle whose lookup with expected type [ty] yields [o]. *)
Theorem alloc_then_get_object_by_type (P : Z -> Prop) mem_ok t o ty t' h :
  reach P t -> ty <> HMGRENTRY_TYPE_FREE -> 0 <= o < 2 ^ 64 ->
  hmgrtable_alloc_handle mem_ok t o ty true = Some (AllocOk t' h) ->
  hmgrtable_get_object_by_type t' ty h = Some o.
Proof.
  intros Hr Hty Ho H.
  pose proof (alloc_wf 0 _ _ _ _ _ _ ltac:(lia) (reach_wf0 _ _ Hr) H) as Hwf.
  cbn [alloc_table] in Hwf.
  apply alloc_ok_inv in H as (t1 & idx & e & _ & Hidx & Hs & _ & He & ->).
  pose proof (entry_unique_wf _ _ _ _ Hwf He) as Hu.
  cbn [unique alloc_entry_fields set_destroyed set_instance set_type set_object] in Hu.
  destruct Hwf as (Hsz & _). rewrite INDEX_MAX_val in Hsz.
  unfold hmgrtable_get_object_by_type, is_handle_valid.
  rewrite get_index_build_handle, get_unique_build_handle by lia.
  destruct (Z.leb_spec (table_size t') idx); [lia|].
  rewrite He.
  cbn [unique destroyed type object link alloc_entry_fields set_destroyed
       set_instance set_type set_object].
  unfold HMGRENTRY_TYPE_FREE in *. rewrite Z.eqb_refl.
  destruct (Z.eqb_spec ty 0); [contradiction|].
  change (0 mod 2) with 0. cbn. rewrite Z.eqb_refl. cbn. f_equal.
  apply Z.mod_small. lia.
Qed.

Lemma alloc_then_get_object_by_type_witness :
  match hmgrtable_alloc_handle true hmgrtable_init 42 1 true with
  | Some (AllocOk t' h) => hmgrtable_get_object_by_type t' 1 h = Some 42
  | _ => False
  end.
Proof.
  destruct (hmgrtable_alloc_handle true hmgrtable_init 42 1 true) as [[t'|t' h]|] eqn:E.
  - vm_compute in E. discriminate.
  - refine (alloc_then_get_object_by_type (fun _ => True) true hmgrtable_init 42 1 t' h
              (reach_init _) _ _ E); [discriminate | lia].
  - vm_compute in E. discriminate.
Defined.

(** C3: for [i < 2^24], [g < 2^2] and [n < 2^6], decoding the handle built
    from [(i, g, n)] gives back [i], [g] and [n]. *)
Theorem handle_codec_roundtrip (i g n : Z) :
  0 <= i < 2 ^ 24 -> 0 <= g < 4 -> 0 <= n < 64 ->
  get_index (build_handle i g n) = i /\
  get_unique (build_handle i g n) = g /\
  get_instance (build_handle i g n) = n.
Proof.
  intros Hi Hg Hn. split; [|split].
  - apply get_index_build_handle; auto.
  - apply get_unique_build_handle; auto.
  - apply get_instance_build_handle; auto.
Qed.

Lemma handle_codec_roundtrip_witness :
  get_index (build_handle 12345 3 63) = 12345 /\
  get_unique (build_handle 12345 3 63) = 3 /\
  get_instance (build_handle 12345 3 63) = 63.
Proof. apply handle_codec_roundtrip; lia. Defined.

(** C4 (free count equals the number of free entries).  On the failing
    input, an assign one slot past the end of the empty table grows it to
    1025 entries, 1024 of them free, while [free_count] is 1023:
    [expand_table] adds [new_table_size - table_size] entries but adds only
    [table_size_increment] to [free_count]. *)
Theorem far_assign_free_count_mismatch :
  match run_ops hmgrtable_init [OpAssign true 7 1 (build_handle 1 1 0)] with
  | Some t =>
      reach (fun _ => True) t /\
      table_size t = 1025 /\ free_count t = 1023 /\ count_free t = 1024
  | None => False
  end.
Proof.
  destruct (run_ops hmgrtable_init _) as [t|] eqn:E.
  - split; [exact (run_ops_reach _ _ _ _ (reach_init _) (Forall_op_assign_ok_true _) E)|].
    vm_compute in E. injection E as <-. vm_compute. auto.
  - vm_compute in E. discriminate.
Qed.

(** C5 (generations lie in 1..3), counterexample: an assign with a handle
    of generation 0 into a reachable table stores generation 0 in slot 0. *)
Lemma assign_stores_generation_0 :
  match run_ops hmgrtable_init [OpAssign true 7 1 (build_handle 0 0 0)] with
  | Some t => reach (fun _ => True) t /\ option_map unique (entry_at t 0) = Some 0
  | None => False
  end.
Proof.
  destruct (run_ops hmgrtable_init _) as [t|] eqn:E.
  - split; [exact (run_ops_reach _ _ _ _ (reach_init _) (Forall_op_assign_ok_true _) E)|].
    vm_compute in E. injection E as <-. vm_compute. reflexivity.
  - vm_compute in E. discriminate.
Qed.

(** C5 (amended): growth stores generation 1, release stores 2,
    allocation keeps the stored one and assign stores the generation of its
    handle; so in every table reached by operations whose assigns use
    handles of non-zero generation, every slot's generation is in 1..3. *)
Theorem reach_generation_range t i e :
  reach (fun h => get_unique h <> 0) t -> entry_at t i = Some e ->
  1 <= unique e <= 3.
Proof.
  intros Hr He.
  assert (Hwf : wf 1 t).
  { apply (reach_wf (fun h => get_unique h <> 0) 1 t); [lia| |exact Hr].
    intros h Hh. pose proof (get_unique_range h). lia. }
  exact (entry_unique_wf _ _ _ _ Hwf He).
Qed.

Lemma reach_generation_range_witness :
  match hmgrtable_alloc_handle true hmgrtable_init 7 1 true with
  | Some r =>
      match entry_at (alloc_table r) 0 with
      | Some e => 1 <= unique e <= 3
      | None => False
      end
  | None => False
  end.
Proof.
  destruct (hmgrtable_alloc_handle true hmgrtable_init 7 1 true) as [r|] eqn:E.
  - destruct (entry_at (alloc_table r) 0) as [e|] eqn:He.
    + exact (reach_generation_range (alloc_table r) 0 e
               (reach_alloc _ _ _ _ _ _ _ (reach_init _) E) He).
    + vm_compute in E. injection E as <-. vm_compute in He. discriminate.
  - vm_compute in E. discriminate.
Defined.

(** C6: a handle that fails the validation of [hmgrtable_free_handle]
    (destroyed flag ignored) leaves the table unchanged. *)
Theorem free_invalid_handle_noop t ty h :
  is_handle_valid t h true ty = Some false ->
  hmgrtable_free_handle t ty h = Some t.
Proof.
  intros Hv. unfold hmgrtable_free_handle. rewrite Hv. reflexivity.
Qed.

Lemma free_invalid_handle_noop_witness :
  match run_ops hmgrtable_init [OpAlloc true 7 1 true] with
  | Some t =>
      is_handle_valid t (build_handle 0 1 0) true 2 = Some false /\
      hmgrtable_free_handle t 2 (build_handle 0 1 0) = Some t
  | None => False
  end.
Proof.
  destruct (run_ops hmgrtable_init [OpAlloc true 7 1 true]) as [t|] eqn:E.
  - assert (Hv : is_handle_valid t (build_handle 0 1 0) true 2 = Some false).
    { vm_compute in E. injection E as <-. vm_compute. reflexivity. }
    exact (conj Hv (free_invalid_handle_noop t 2 (build_handle 0 1 0) Hv)).
  - vm_compute in E. discriminate.
Defined.

(** C7: an assign whose index designates a slot of the table that is not
    free fails with [STATUS_INVALID_PARAMETER] and returns the table
    unchanged. *)
Theorem assign_busy_slot mem_ok t obj ty h e :
  get_index h < table_size t -> entry_at t (get_index h) = Some e ->
  type e <> HMGRENTRY_TYPE_FREE ->
  hmgrtable_assign_handle mem_ok t obj ty h = Some (t, STATUS_INVALID_PARAMETER).
Proof.
  intros Hi He Ht. unfold hmgrtable_assign_handle.
  destruct (HMGRHANDLE_INDEX_MAX <=? get_index h); [reflexivity|].
  destruct (Z.leb_spec (table_size t) (get_index h)); [lia|].
  cbn [negb]. rewrite He.
  destruct (Z.eqb_spec (type e) HMGRENTRY_TYPE_FREE); [contradiction|].
  reflexivity.
Qed.

Lemma assign_busy_slot_witness :
  match run_ops hmgrtable_init [OpAlloc true 7 1 true] with
  | Some t => hmgrtable_assign_handle true t 8 1 (build_handle 0 1 0)
                = Some (t, STATUS_INVALID_PARAMETER)
  | None => False
  end.
Proof.
  destruct (run_ops hmgrtable_init [OpAlloc true 7 1 true]) as [t|] eqn:E.
  - destruct (entry_at t (get_index (build_handle 0 1 0))) as [e|] eqn:He.
    + refine (assign_busy_slot true t 8 1 (build_handle 0 1 0) e _ He _);
        vm_compute in E; injection E as <-.
      * vm_compute. reflexivity.
      * vm_compute in He. injection He as <-. vm_compute. discriminate.
    + vm_compute in E. injection E as <-. vm_compute in He. discriminate.
  - vm_compute in E. discriminate.
Defined.

(** C8: [expand_table] is all-or-nothing: when it reports failure the table
    is the one it was given, and it reports failure whenever the target
    size exceeds [HMGRHANDLE_INDEX_MAX] or the allocation fails. *)
Theorem expand_table_all_or_nothing mem_ok t n b t' :
  expand_table mem_ok t n = Some (b, t') ->
  (b = false -> t' = t) /\
  (HMGRHANDLE_INDEX_MAX <
     (if u32 (table_size t + table_size_increment) <? n then n
      else u32 (table_size t + table_size_increment)) \/ mem_ok = false ->
   b = false).
Proof.
  intros H. apply expand_table_inv in H as [[-> ->]|[-> [-> H]]].
  - split; auto.
  - destruct H as (ns & _ & _ & _ & _ & _ & _ & Hns & Hmax & _).
    split; [discriminate|]. intros [Hc|Hc]; [lia|discriminate].
Qed.

Lemma expand_table_all_or_nothing_witness :
  expand_table false hmgrtable_init 0 = Some (false, hmgrtable_init) /\
  (false = false -> hmgrtable_init = hmgrtable_init) /\
  (HMGRHANDLE_INDEX_MAX <
     (if u32 (table_size hmgrtable_init + table_size_increment) <? 0 then 0
      else u32 (table_size hmgrtable_init + table_size_increment)) \/
   false = false -> false = false).
Proof.
  assert (E : expand_table false hmgrtable_init 0 = Some (false, hmgrtable_init))
    by (vm_compute; reflexivity).
  exact (conj E (expand_table_all_or_nothing false hmgrtable_init 0 false _ E)).
Defined.

(** C9: when [free_count] is at most [HMGRTABLE_MIN_FREE_ENTRIES], a
    successful allocation leaves more than [HMGRTABLE_MIN_FREE_ENTRIES]
    free entries and a larger table, and if the growth fails the
    allocation fails with the table unchanged. *)
Theorem alloc_low_water_grows (P : Z -> Prop) mem_ok t obj ty mv :
  reach P t -> free_count t <= HMGRTABLE_MIN_FREE_ENTRIES ->
  (forall t' h, hmgrtable_alloc_handle mem_ok t obj ty mv = Some (AllocOk t' h) ->
     HMGRTABLE_MIN_FREE_ENTRIES < free_count t' /\ table_size t < table_size t') /\
  (forall t1, expand_table mem_ok t 0 = Some (false, t1) ->
     hmgrtable_alloc_handle mem_ok t obj ty mv = Some (AllocFail t)).
Proof.
  intros Hr Hfc.
  pose proof (reach_wf0 _ _ Hr) as (Hsz & Hfc0 & _). rewrite INDEX_MAX_val in Hsz.
  assert (Hle : (free_count t <=? HMGRTABLE_MIN_FREE_ENTRIES) = true)
    by (apply Z.leb_le; exact Hfc).
  unfold HMGRTABLE_MIN_FREE_ENTRIES in Hfc.
  split.
  - intros t' h H.
    apply alloc_ok_inv in H as (t1 & idx & e & Hx & _ & Hs & Hf & _).
    rewrite Hle in Hx.
    apply expand_table_inv in Hx as [[? _]|[_ [_ Hx]]]; [discriminate|].
    destruct Hx as (ns & ? & ? & ? & ? & ? & ? & Hns & ? & ? & ? & ? & ? & Ht1).
    rewrite Ht1 in Hs, Hf. cbn [table_size free_count] in Hs, Hf. rewrite Hs, Hf. subst ns.
    unfold table_size_increment, HMGRTABLE_SIZE_INCREMENT, u32.
    rewrite (Z.mod_small (table_size t + 1024)) by lia.
    rewrite (Z.mod_small (free_count t + 1024)) by lia.
    destruct (Z.ltb_spec (table_size t + 1024) 0); [lia|].
    rewrite Z.mod_small by lia. unfold HMGRTABLE_MIN_FREE_ENTRIES in *. lia.
  - intros t1 Hx. unfold hmgrtable_alloc_handle. rewrite Hle.
    pose proof Hx as Hx'. apply expand_table_inv in Hx' as [[_ ->]|[? _]];
      [|discriminate].
    rewrite Hx. reflexivity.
Qed.

Lemma alloc_low_water_grows_witness :
  match hmgrtable_alloc_handle true hmgrtable_init 7 1 true with
  | Some (AllocOk t' h) =>
      HMGRTABLE_MIN_FREE_ENTRIES < free_count t' /\
      table_size hmgrtable_init < table_size t'
  | _ => False
  end.
Proof.
  destruct (hmgrtable_alloc_handle true hmgrtable_init 7 1 true) as [[t'|t' h]|] eqn:E.
  - vm_compute in E. discriminate.
  - refine (proj1 (alloc_low_water_grows (fun _ => True) true hmgrtable_init 7 1 true
                     (reach_init _) _) t' h E).
    vm_compute. discriminate.
  - vm_compute in E. discriminate.
Defined.

(** C10 (the free list is non-empty whenever [free_count >= 1]).  On the
    failing input (the scenario of C4 followed by assigns of every other
    slot) [free_count] has wrapped to [2^32 - 1] while the free list is
    empty: its tail is [HMGRTABLE_INVALID_INDEX].  Releasing a valid handle
    then writes the entry at that tail, outside the array. *)
Theorem free_with_empty_list_out_of_bounds :
  match run_ops hmgrtable_init fill_after_far_assign with
  | Some t =>
      reach (fun _ => True) t /\
      table_size t = 1025 /\ count_free t = 0 /\
      1 <= free_count t /\
      free_handle_list_head t = HMGRTABLE_INVALID_INDEX /\
      free_handle_list_tail t = HMGRTABLE_INVALID_INDEX /\
      is_handle_valid t (build_handle 5 1 0) true 1 = Some true /\
      hmgrtable_free_handle t 1 (build_handle 5 1 0) = None
  | None => False
  end.
Proof.
  destruct (run_ops hmgrtable_init fill_after_far_assign) as [t|] eqn:E.
  - split; [exact (run_ops_reach _ _ _ _ (reach_init _) (Forall_op_assign_ok_true _) E)|].
    vm_compute in E. injection E as <-. vm_compute.
    repeat split; try reflexivity; discriminate.
  - vm_compute in E. discriminate.
Qed.

(** * Further properties of the handle table *)

Lemma get_index_build_handle_any (i g n : Z) :
  0 <= i < 2 ^ 24 -> get_index (build_handle i g n) = i.
Proof.
  intros Hi. codec_bits k.
  destruct (Z.ltb_spec k 24); finish_bits.
  - f_equal; lia.
  - symmetry. apply (testbit_small_high i k 24); lia.
Qed.

Lemma get_unique_build_handle_any (i g n : Z) :
  0 <= g < 4 -> get_unique (build_handle i g n) = g.
Proof.
  intros Hg. codec_bits k.
  destruct (Z.ltb_spec k 2); finish_bits.
  - f_equal; lia.
  - symmetry. apply (testbit_small_high g k 2); lia.
Qed.

Ltac cmp_only :=
  repeat match goal with
  | |- context [?a <? ?b] =>
      first [ rewrite (proj2 (Z.ltb_lt a b)) by lia
            | rewrite (proj2 (Z.ltb_ge a b)) by lia ]
  | |- context [?a <=? ?b] =>
      first [ rewrite (proj2 (Z.leb_le a b)) by lia
            | rewrite (proj2 (Z.leb_gt a b)) by lia ]
  end;
  rewrite ?andb_false_r, ?andb_true_r, ?andb_false_l, ?andb_true_l,
    ?orb_false_r, ?orb_false_l.

(** Every 32-bit handle is rebuilt from its decoded index, generation
    and instance. *)
Theorem build_handle_decode (h : Z) :
  0 <= h < 2 ^ 32 ->
  build_handle (get_index h) (get_unique h) (get_instance h) = h.
Proof.
  intros Hh. apply Z.bits_inj'; intros k Hk. unfold_codec.
  rewrite !Z.lor_spec, !Z.land_spec.
  rewrite !testbit_field_mask by lia.
  rewrite !testbit_u32 by lia.
  cbn [Z.add].
  change (Z.pos (24 + 6)) with 30. change (Z.pos (24 + 6 + 2)) with 32.
  change (Z.pos (6 + 24)) with 30.
  rewrite !Z.shiftr_0_r, !Z.shiftl_0_r.
  destruct (Z.ltb_spec k 32).
  - destruct (Z.ltb_spec k 6); [|destruct (Z.ltb_spec k 30)]; cmp_only.
    + change (u32 (Z.shiftl 1 6 - 1)) with (Z.ones 6).
      rewrite Z.land_spec, Z.testbit_ones_nonneg by lia. cmp_only. reflexivity.
    + rewrite Z.shiftl_spec, Z.shiftr_spec, Z.land_spec, testbit_field_mask by lia.
      cmp_only. f_equal. lia.
    + rewrite Z.shiftl_spec, Z.shiftr_spec, Z.land_spec, testbit_field_mask by lia.
      cmp_only. f_equal. lia.
  - symmetry. apply (testbit_small_high h k 32); lia.
Qed.

Lemma update_nth_twice {A} (n : nat) (f g : A -> A) (l : list A) :
  update_nth n g (update_nth n f l) = update_nth n (fun x => g (f x)) l.
Proof.
  revert n; induction l as [|x l IH]; intros [|n]; simpl; f_equal; auto.
Qed.

Lemma update_nth_id {A} (n : nat) (f : A -> A) (l : list A) x :
  nth_error l n = Some x -> f x = x -> update_nth n f l = l.
Proof.
  revert n; induction l as [|y l IH]; intros [|n] Hn Hf; simpl in *;
    try discriminate.
  - injection Hn as ->. rewrite Hf. reflexivity.
  - f_equal. auto.
Qed.

Lemma set_entry_table_same t a :
  entry_table t = Some a -> set_entry_table a t = t.
Proof. destruct t; simpl; intros ->; reflexivity. Qed.

Lemma modify_entry_undo t t1 i f g e :
  modify_entry t i f = Some t1 -> entry_at t i = Some e -> g (f e) = e ->
  modify_entry t1 i g = Some t.
Proof.
  intros H He Hg.
  apply modify_entry_Some in H as (a & a' & Ha & Hu & ->).
  pose proof (arr_upd_Some _ _ _ _ Hu) as [Hi ->].
  apply entry_at_Some in He as (a0 & Ha0 & _ & Hn). rewrite Ha in Ha0.
  injection Ha0 as <-.
  unfold modify_entry, arr_upd. cbn [entry_table set_entry_table].
  rewrite length_update_nth.
  destruct (Z.leb_spec 0 i), (Z.ltb_spec i (Z.of_nat (length a))); try lia.
  cbn. rewrite update_nth_twice, (update_nth_id _ _ _ e Hn Hg).
  f_equal. rewrite <- (set_entry_table_same t a Ha) at 2. reflexivity.
Qed.

Lemma modify_entry_idem t t1 i f :
  modify_entry t i f = Some t1 -> (forall x, f (f x) = f x) ->
  modify_entry t1 i f = Some t1.
Proof.
  intros H Hf.
  apply modify_entry_Some in H as (a & a' & Ha & Hu & ->).
  pose proof (arr_upd_Some _ _ _ _ Hu) as [Hi ->].
  unfold modify_entry, arr_upd. cbn [entry_table set_entry_table].
  rewrite length_update_nth.
  destruct (Z.leb_spec 0 i), (Z.ltb_spec i (Z.of_nat (length a))); try lia.
  cbn. rewrite update_nth_twice.
  assert (E : forall m l, update_nth m (fun x => f (f x)) l = update_nth m f l).
  { clear - Hf. induction m as [|m IH]; intros [|y l]; simpl; rewrite ?Hf, ?IH;
      reflexivity. }
  rewrite E. reflexivity.
Qed.

Lemma is_handle_valid_true t h ig ty :
  is_handle_valid t h ig ty = Some true <->
  exists e, get_index h < table_size t /\ entry_at t (get_index h) = Some e /\
    get_unique h = unique e /\ (ig = true \/ destroyed e = 0) /\
    type e <> HMGRENTRY_TYPE_FREE /\ (ty = HMGRENTRY_TYPE_FREE \/ ty = type e).
Proof.
  unfold is_handle_valid. split.
  - destruct (Z.leb_spec (table_size t) (get_index h)); [discriminate|].
    destruct (entry_at t (get_index h)) as [e|]; [|discriminate].
    destruct (Z.eqb_spec (get_unique h) (unique e)); [|discriminate].
    destruct (Z.eqb_spec (destroyed e) 0), ig; cbn; try discriminate;
    destruct (Z.eqb_spec (type e) HMGRENTRY_TYPE_FREE); try discriminate;
    destruct (Z.eqb_spec ty HMGRENTRY_TYPE_FREE), (Z.eqb_spec ty (type e));
      cbn; try discriminate; intros _; exists e; repeat split; auto.
  - intros (e & Hi & He & Hu & Hd & Ht & Hty).
    destruct (Z.leb_spec (table_size t) (get_index h)); [lia|].
    rewrite He, Hu, Z.eqb_refl. cbn.
    destruct Hd as [ -> | -> ]; cbn;
    destruct (Z.eqb_spec (type e) HMGRENTRY_TYPE_FREE); try contradiction;
    destruct Hty as [ -> | -> ]; rewrite Z.eqb_refl; cbn; rewrite ?andb_false_r; reflexivity.
Qed.

Lemma is_handle_valid_free_slot t h ig ty e :
  entry_at t (get_index h) = Some e -> type e = HMGRENTRY_TYPE_FREE ->
  is_handle_valid t h ig ty = Some false.
Proof.
  intros He Ht. unfold is_handle_valid. rewrite He, Ht.
  destruct (table_size t <=? get_index h); [reflexivity|].
  destruct (negb (get_unique h =? unique e)); [reflexivity|].
  destruct (negb (destroyed e =? 0) && negb ig); reflexivity.
Qed.

Lemma is_handle_valid_modify t t' i f h ig ty :
  modify_entry t i f = Some t' ->
  (forall e, unique (f e) = unique e /\ type (f e) = type e /\
             (ig = false -> destroyed (f e) = destroyed e)) ->
  is_handle_valid t' h ig ty = is_handle_valid t h ig ty.
Proof.
  intros H Hf. unfold is_handle_valid.
  rewrite (entry_at_modify _ _ _ (get_index h) _ H).
  destruct (modify_entry_fields _ _ _ _ H) as (-> & _).
  destruct (i =? get_index h); [|reflexivity].
  destruct (entry_at t (get_index h)) as [e|]; cbn [option_map]; [|reflexivity].
  destruct (Hf e) as (-> & -> & Hd).
  destruct ig; cbn [negb]; rewrite ?andb_false_r; [reflexivity|].
  rewrite Hd by reflexivity. reflexivity.
Qed.

Lemma modify_entry_exists t i f e :
  entry_at t i = Some e ->
  exists t', modify_entry t i f = Some t' /\ entry_at t' i = Some (f e).
Proof.
  intros He. pose proof He as He'.
  apply entry_at_Some in He' as (a & Ha & Hi & _).
  unfold modify_entry. rewrite Ha. unfold arr_upd.
  destruct (Z.leb_spec 0 i), (Z.ltb_spec i (Z.of_nat (length a))); try lia.
  cbn. eexists; split; [reflexivity|].
  assert (Hm : modify_entry t i f = Some (set_entry_table (update_nth (Z.to_nat i) f a) t)).
  { unfold modify_entry, arr_upd. rewrite Ha.
    destruct (Z.leb_spec 0 i), (Z.ltb_spec i (Z.of_nat (length a))); try lia.
    reflexivity. }
  rewrite (entry_at_modify _ _ _ i _ Hm), Z.eqb_refl, He. reflexivity.
Qed.

Lemma is_handle_valid_destroyed t h ty e :
  entry_at t (get_index h) = Some e -> destroyed e <> 0 ->
  is_handle_valid t h false ty = Some false.
Proof.
  intros He Hd. unfold is_handle_valid. rewrite He.
  destruct (table_size t <=? get_index h); [reflexivity|].
  destruct (negb (get_unique h =? unique e)); [reflexivity|].
  destruct (Z.eqb_spec (destroyed e) 0); [contradiction|]. reflexivity.
Qed.

Lemma is_handle_valid_not_destroyed t h ty e :
  entry_at t (get_index h) = Some e -> destroyed e = 0 ->
  is_handle_valid t h true ty = is_handle_valid t h false ty.
Proof.
  intros He Hd. unfold is_handle_valid. rewrite He, Hd. reflexivity.
Qed.

Lemma is_handle_valid_any_false t h ig ty :
  is_handle_valid t h true HMGRENTRY_TYPE_FREE = Some false ->
  is_handle_valid t h ig ty = Some false.
Proof.
  unfold is_handle_valid.
  destruct (table_size t <=? get_index h); [reflexivity|].
  destruct (entry_at t (get_index h)) as [e|]; [|discriminate].
  destruct (negb (get_unique h =? unique e)); [reflexivity|].
  cbn [negb andb]. rewrite andb_false_r.
  destruct (type e =? HMGRENTRY_TYPE_FREE);
    [destruct (negb (destroyed e =? 0) && negb ig); reflexivity|].
  cbn. discriminate.
Qed.

Lemma entry_at_set_tail x t i : entry_at (set_tail x t) i = entry_at t i.
Proof. reflexivity. Qed.

Lemma modify_entry_type t t' i f j e :
  modify_entry t i f = Some t' -> (forall x, type (f x) = type x) ->
  entry_at t j = Some e ->
  exists e', entry_at t' j = Some e' /\ type e' = type e.
Proof.
  intros H Hf He. rewrite (entry_at_modify _ _ _ j _ H), He.
  destruct (i =? j); cbn; eexists; split; eauto.
Qed.

(** Marking a valid handle destroyed. *)
Theorem mark_destroyed_effect t h :
  is_handle_valid t h false HMGRENTRY_TYPE_FREE = Some true ->
  exists t',
    hmgrtable_mark_destroyed t h = Some (t', true) /\
    hmgrtable_get_object t' h = Some 0 /\
    (forall ty, hmgrtable_get_object_ignore_destroyed t' h ty =
                hmgrtable_get_object_by_type t ty h) /\
    hmgrtable_mark_destroyed t' h = Some (t', false).
Proof.
  intros Hv. pose proof Hv as Hv'.
  apply is_handle_valid_true in Hv' as (e & Hi & He & Hu & [Hig|Hd] & Ht & _);
    [discriminate|].
  destruct (modify_entry_exists t (get_index h) (set_destroyed 1) e He)
    as (t1 & Hm & He1).
  assert (Hv1 : is_handle_valid t1 h false HMGRENTRY_TYPE_FREE = Some false)
    by (apply (is_handle_valid_destroyed _ _ _ _ He1); cbn; discriminate).
  exists t1. unfold hmgrtable_mark_destroyed. rewrite Hv, Hm, Hv1.
  split; [reflexivity|]. split; [|split; [|reflexivity]].
  - unfold hmgrtable_get_object. rewrite Hv1. reflexivity.
  - intros ty. unfold hmgrtable_get_object_ignore_destroyed, hmgrtable_get_object_by_type.
    rewrite (is_handle_valid_modify _ _ _ _ _ _ _ Hm)
      by (intros x; repeat split; discriminate).
    rewrite (is_handle_valid_not_destroyed _ _ _ _ He Hd).
    destruct (is_handle_valid t h false ty) as [[|]|]; cbn [negb]; try reflexivity.
    rewrite He1, He. reflexivity.
Qed.

(** Unmarking undoes marking. *)
Theorem unmark_after_mark t h t' :
  is_handle_valid t h false HMGRENTRY_TYPE_FREE = Some true ->
  hmgrtable_mark_destroyed t h = Some (t', true) ->
  hmgrtable_unmark_destroyed t' h = Some (t, true).
Proof.
  intros Hv H. pose proof Hv as Hv'.
  apply is_handle_valid_true in Hv' as (e & Hi & He & Hu & [Hig|Hd] & Ht & _);
    [discriminate|].
  unfold hmgrtable_mark_destroyed in H. rewrite Hv in H. cbn [negb] in H.
  destruct (modify_entry t (get_index h) (set_destroyed 1)) as [t1|] eqn:Hm;
    [|discriminate].
  injection H as <-.
  unfold hmgrtable_unmark_destroyed.
  rewrite (is_handle_valid_modify _ _ _ _ _ _ _ Hm)
    by (intros x; repeat split; discriminate).
  rewrite (is_handle_valid_not_destroyed _ _ _ _ He Hd), Hv. cbn [negb].
  rewrite (modify_entry_undo _ _ _ _ _ e Hm He); [reflexivity|].
  destruct e; cbn in *; subst; reflexivity.
Qed.

(** Unmarking always reports success and is idempotent. *)
Theorem unmark_destroyed_effect t h t' b :
  hmgrtable_unmark_destroyed t h = Some (t', b) ->
  b = true /\
  hmgrtable_unmark_destroyed t' h = Some (t', true) /\
  (forall ty, hmgrtable_get_object_by_type t' ty h =
              hmgrtable_get_object_ignore_destroyed t h ty).
Proof.
  unfold hmgrtable_unmark_destroyed at 1. intros H.
  destruct (is_handle_valid t h true HMGRENTRY_TYPE_FREE) as [[|]|] eqn:Hv;
    [|injection H as <- <-|discriminate].
  - cbn [negb] in H.
    destruct (modify_entry t (get_index h) (set_destroyed 0)) as [t1|] eqn:Hm;
      [|discriminate].
    injection H as <- <-.
    pose proof Hv as Hv'.
    apply is_handle_valid_true in Hv' as (e & Hi & He & Hu & _ & Ht & _).
    destruct (modify_entry_exists t (get_index h) (set_destroyed 0) e He)
      as (t2 & Hm2 & He1). rewrite Hm in Hm2. injection Hm2 as <-.
    assert (Hsame : forall ty, is_handle_valid t1 h true ty = is_handle_valid t h true ty)
      by (intros ty; apply (is_handle_valid_modify _ _ _ _ _ _ _ Hm);
          intros x; repeat split; discriminate).
    split; [reflexivity|]. split.
    + unfold hmgrtable_unmark_destroyed. rewrite Hsame, Hv. cbn [negb].
      rewrite (modify_entry_idem _ _ _ _ Hm); [reflexivity|].
      intros [l ty u n d]. reflexivity.
    + intros ty. unfold hmgrtable_get_object_by_type, hmgrtable_get_object_ignore_destroyed.
      rewrite <- (is_handle_valid_not_destroyed _ _ _ _ He1) by reflexivity.
      rewrite Hsame.
      destruct (is_handle_valid t h true ty) as [[|]|]; cbn [negb]; try reflexivity.
      rewrite He1, He. reflexivity.
  - split; [reflexivity|]. split.
    + unfold hmgrtable_unmark_destroyed. rewrite Hv. reflexivity.
    + intros ty. unfold hmgrtable_get_object_by_type, hmgrtable_get_object_ignore_destroyed.
      rewrite !(is_handle_valid_any_false _ _ _ _ Hv). reflexivity.
Qed.

Lemma u32_sub_r a b : u32 (a - u32 b) = u32 (a - b).
Proof. apply Zminus_mod_idemp_r. Qed.

Lemma u32_sub_l a b : u32 (u32 a - b) = u32 (a - b).
Proof. apply Zminus_mod_idemp_l. Qed.

Lemma u32_add_l a b : u32 (u32 a + b) = u32 (a + b).
Proof. apply Zplus_mod_idemp_l. Qed.

Lemma u32_small x : 0 <= x < 2 ^ 32 -> u32 x = x.
Proof. intros. unfold u32. apply Z.mod_small. lia. Qed.

Lemma free_valid_inv t ty h t' :
  is_handle_valid t h true ty = Some true ->
  hmgrtable_free_handle t ty h = Some t' ->
  exists t1 t3 t4,
    modify_entry t (get_index h) free_entry_fields = Some t1 /\
    modify_entry (set_free_count (free_count t1 + 1) t1) (get_index h)
      (fun e => set_prev_free_index (free_handle_list_tail t1)
                  (set_next_free_index HMGRTABLE_INVALID_INDEX e)) = Some t3 /\
    modify_entry t3 (free_handle_list_tail t3) (set_next_free_index (get_index h))
      = Some t4 /\
    t' = set_tail (get_index h) t4.
Proof.
  intros Hv H. unfold hmgrtable_free_handle in H. rewrite Hv in H. cbn [negb] in H.
  destruct (modify_entry t (get_index h) free_entry_fields) as [t1|] eqn:E1;
    [|discriminate].
  match type of H with
  | (match ?m with Some _ => _ | None => None end) = _ =>
      destruct m as [t3|] eqn:E3; [|discriminate]
  end.
  destruct (modify_entry t3 (free_handle_list_tail t3) _) as [t4|] eqn:E4;
    [|discriminate].
  injection H as <-. exists t1, t3, t4. auto.
Qed.

Lemma free_entry_fields_type e : type (free_entry_fields e) = HMGRENTRY_TYPE_FREE.
Proof.
  unfold free_entry_fields. destruct (negb _); reflexivity.
Qed.

(** A released handle no longer resolves. *)
Theorem freed_handle_rejected t ty h t' :
  is_handle_valid t h true ty = Some true ->
  hmgrtable_free_handle t ty h = Some t' ->
  (forall ig ty', is_handle_valid t' h ig ty' = Some false) /\
  hmgrtable_get_object t' h = Some 0 /\
  hmgrtable_get_object_type t' h = Some HMGRENTRY_TYPE_FREE /\
  hmgrtable_mark_destroyed t' h = Some (t', false).
Proof.
  intros Hv H. pose proof Hv as Hv'.
  apply is_handle_valid_true in Hv' as (e & _ & He & _).
  destruct (free_valid_inv _ _ _ _ Hv H) as (t1 & t3 & t4 & E1 & E3 & E4 & ->).
  destruct (modify_entry_exists t (get_index h) free_entry_fields e He) as (t1' & E1' & He1).
  rewrite E1 in E1'. injection E1' as <-.
  destruct (modify_entry_type _ _ _ _ _ _ E3 ltac:(reflexivity) He1) as (e3 & He3 & Ht3).
  destruct (modify_entry_type _ _ _ _ _ _ E4 ltac:(reflexivity) He3) as (e4 & He4 & Ht4).
  rewrite free_entry_fields_type in Ht3. rewrite Ht3 in Ht4.
  rewrite <- (entry_at_set_tail (get_index h)) in He4.
  assert (Hf : forall ig ty', is_handle_valid (set_tail (get_index h) t4) h ig ty' = Some false)
    by (intros; exact (is_handle_valid_free_slot _ _ _ _ _ He4 Ht4)).
  split; [exact Hf|].
  unfold hmgrtable_get_object, hmgrtable_get_object_type, hmgrtable_mark_destroyed.
  rewrite !Hf. auto.
Qed.

(** Release appends the slot at the tail of the free list. *)
Theorem free_valid_effect t ty h t' :
  is_handle_valid t h true ty = Some true ->
  hmgrtable_free_handle t ty h = Some t' ->
  table_size t' = table_size t /\
  free_handle_list_head t' = free_handle_list_head t /\
  free_handle_list_tail t' = get_index h /\
  free_count t' = u32 (free_count t + 1) /\
  hmgrtable_get_used_entry_count t' = u32 (hmgrtable_get_used_entry_count t - 1) /\
  (forall j, j <> get_index h -> j <> free_handle_list_tail t ->
             entry_at t' j = entry_at t j).
Proof.
  intros Hv H.
  destruct (free_valid_inv _ _ _ _ Hv H) as (t1 & t3 & t4 & E1 & E3 & E4 & ->).
  destruct (modify_entry_fields _ _ _ _ E1) as (S1 & F1 & H1 & T1).
  destruct (modify_entry_fields _ _ _ _ E3) as (S3 & F3 & H3 & T3).
  destruct (modify_entry_fields _ _ _ _ E4) as (S4 & F4 & H4 & T4).
  cbn [table_size free_count free_handle_list_head free_handle_list_tail
       set_tail set_free_count] in *.
  assert (Hfc : free_count t4 = u32 (free_count t + 1)) by congruence.
  pose proof (get_index_range h).
  split; [congruence|]. split; [congruence|]. split; [apply u32_small; lia|].
  split; [exact Hfc|]. split.
  - unfold hmgrtable_get_used_entry_count. cbn [table_size free_count set_tail].
    rewrite Hfc, S4, S3, S1, u32_sub_r, u32_sub_l. f_equal. lia.
  - intros j Hj Ht. rewrite entry_at_set_tail.
    rewrite (entry_at_modify _ _ _ j _ E4).
    destruct (Z.eqb_spec (free_handle_list_tail t3) j); [congruence|].
    rewrite (entry_at_modify _ _ _ j _ E3), entry_at_set_free_count.
    destruct (Z.eqb_spec (get_index h) j); [congruence|].
    rewrite (entry_at_modify _ _ _ j _ E1).
    destruct (Z.eqb_spec (get_index h) j); [congruence|reflexivity].
Qed.

Lemma alloc_ok_entry (P : Z -> Prop) mem_ok t o ty mv t' h :
  reach P t ->
  hmgrtable_alloc_handle mem_ok t o ty mv = Some (AllocOk t' h) ->
  exists e,
    0 <= get_index h < table_size t' /\
    entry_at t' (get_index h) = Some (alloc_entry_fields o ty mv e) /\
    get_unique h = unique e /\ 0 <= unique e <= 3 /\
    h = build_handle (get_index h) (unique e) 0.
Proof.
  intros Hr H.
  pose proof (alloc_wf 0 _ _ _ _ _ _ ltac:(lia) (reach_wf0 _ _ Hr) H) as Hwf.
  cbn [alloc_table] in Hwf.
  apply alloc_ok_inv in H as (t1 & idx & e & _ & Hidx & Hs & _ & He & ->).
  pose proof (entry_unique_wf _ _ _ _ Hwf He) as Hu. cbn in Hu.
  destruct Hwf as (Hsz & _). rewrite INDEX_MAX_val in Hsz.
  rewrite get_index_build_handle, get_unique_build_handle by lia.
  exists e. repeat split; auto; lia.
Qed.

(** A successful allocation with [make_valid] set. *)
Theorem alloc_valid_lookups (P : Z -> Prop) mem_ok t o ty t' h :
  reach P t -> ty <> HMGRENTRY_TYPE_FREE -> 0 <= o < 2 ^ 64 ->
  hmgrtable_alloc_handle mem_ok t o ty true = Some (AllocOk t' h) ->
  hmgrtable_get_object t' h = Some o /\
  hmgrtable_get_object_type t' h = Some ty /\
  hmgrtable_build_entry_handle t' (get_index h) = Some h.
Proof.
  intros Hr Hty Ho H.
  destruct (alloc_ok_entry _ _ _ _ _ _ _ _ Hr H) as (e & Hi & He & Hu & Hur & Hh).
  assert (Hv : is_handle_valid t' h false HMGRENTRY_TYPE_FREE = Some true).
  { apply is_handle_valid_true. exists (alloc_entry_fields o ty true e).
    repeat split; auto; lia. }
  unfold hmgrtable_get_object, hmgrtable_get_object_type, hmgrtable_get_entry_type,
    hmgrtable_build_entry_handle.
  rewrite Hv, He. cbn [negb object type link alloc_entry_fields set_destroyed
    set_instance set_type set_object unique instance].
  split; [f_equal; apply Z.mod_small; lia|]. split; [reflexivity|].
  transitivity (Some (build_handle (get_index h) (unique e) 0)); [reflexivity|].
  rewrite <- Hh. reflexivity.
Qed.

(** A handle minted destroyed becomes resolvable once unmarked. *)
Theorem alloc_destroyed_then_unmark (P : Z -> Prop) mem_ok t o ty t' h :
  reach P t -> ty <> HMGRENTRY_TYPE_FREE -> 0 <= o < 2 ^ 64 ->
  hmgrtable_alloc_handle mem_ok t o ty false = Some (AllocOk t' h) ->
  hmgrtable_get_object_by_type t' ty h = Some 0 /\
  hmgrtable_get_object_ignore_destroyed t' h ty = Some o /\
  exists t'', hmgrtable_unmark_destroyed t' h = Some (t'', true) /\
              hmgrtable_get_object_by_type t'' ty h = Some o.
Proof.
  intros Hr Hty Ho H.
  destruct (alloc_ok_entry _ _ _ _ _ _ _ _ Hr H) as (e & Hi & He & Hu & Hur & Hh).
  set (e1 := alloc_entry_fields o ty false e) in He.
  assert (Hobj : object e1 = o) by (apply Z.mod_small; lia).
  assert (Hv : forall ty', ty' = HMGRENTRY_TYPE_FREE \/ ty' = ty ->
                 is_handle_valid t' h true ty' = Some true).
  { intros ty' Hty'. apply is_handle_valid_true. exists e1.
    repeat split; auto; lia. }
  split; [|split].
  - unfold hmgrtable_get_object_by_type.
    rewrite (is_handle_valid_destroyed _ _ _ _ He) by (cbn; discriminate).
    reflexivity.
  - unfold hmgrtable_get_object_ignore_destroyed.
    rewrite (Hv ty (or_intror eq_refl)), He. cbn [negb]. rewrite Hobj. reflexivity.
  - destruct (modify_entry_exists t' (get_index h) (set_destroyed 0) e1 He)
      as (t2 & Hm & He2).
    exists t2. unfold hmgrtable_unmark_destroyed.
    rewrite (Hv _ (or_introl eq_refl)), Hm. cbn [negb]. split; [reflexivity|].
    unfold hmgrtable_get_object_by_type.
    assert (Hv2 : is_handle_valid t2 h false ty = Some true).
    { apply is_handle_valid_true. exists (set_destroyed 0 e1).
      destruct (modify_entry_fields _ _ _ _ Hm) as (-> & _).
      repeat split; auto; lia. }
    rewrite Hv2, He2. cbn [negb]. exact (f_equal Some Hobj).
Qed.

Lemma u32_nonneg_ltb x : (u32 x <? 0) = false.
Proof. apply Z.ltb_ge. apply u32_range. Qed.

(** Every successful allocation adds one to the used entry count. *)
Theorem alloc_used_count mem_ok t o ty mv t' h :
  hmgrtable_alloc_handle mem_ok t o ty mv = Some (AllocOk t' h) ->
  hmgrtable_get_used_entry_count t' = u32 (hmgrtable_get_used_entry_count t + 1).
Proof.
  intros H.
  apply alloc_ok_inv in H as (t1 & idx & e & Hx & _ & Hs & Hf & _).
  unfold hmgrtable_get_used_entry_count. rewrite Hs, Hf, u32_sub_r, u32_add_l.
  destruct (free_count t <=? HMGRTABLE_MIN_FREE_ENTRIES).
  - apply expand_table_inv in Hx as [[? _]|[_ [_ Hx]]]; [discriminate|].
    destruct Hx as (ns & ? & ? & ? & ? & ? & ? & Hns & ? & ? & ? & ? & ? & Ht1).
    rewrite Ht1. cbn [table_size free_count]. subst ns.
    rewrite u32_nonneg_ltb.
    replace (u32 (table_size t + table_size_increment) -
               (u32 (free_count t + table_size_increment) - 1))
      with (u32 (table_size t + table_size_increment) + 1 -
              u32 (free_count t + table_size_increment)) by lia.
    rewrite u32_sub_r.
    replace (u32 (table_size t + table_size_increment) + 1 -
               (free_count t + table_size_increment))
      with (u32 (table_size t + table_size_increment) +
              (1 - free_count t - table_size_increment)) by lia.
    rewrite u32_add_l. f_equal. lia.
  - injection Hx as <-. f_equal. lia.
Qed.

Ltac step_assign H :=
  match type of H with
  | (if ?c then _ else _) = _ => let E := fresh "E" in destruct c eqn:E
  | (match ?m with Some _ => _ | None => None end) = _ =>
      let E := fresh "E" in destruct m eqn:E
  | (match ?p with pair _ _ => _ end) = _ => destruct p eqn:?
  | None = Some _ => discriminate H
  | Some (_, ?s) = Some (_, 0) =>
      first [ injection H as _ H; unfold STATUS_INVALID_PARAMETER, STATUS_NO_MEMORY in H;
              discriminate H
            | injection H as <- ]
  end; cbn beta iota zeta in H.

Lemma assign_ok_inv mem_ok t obj ty h t' :
  hmgrtable_assign_handle mem_ok t obj ty h = Some (t', 0) ->
  exists e,
    get_index h < table_size t' /\
    entry_at t' (get_index h) =
      Some (set_destroyed 0 (set_unique (get_unique h) (set_instance 0 (set_type ty
              (set_object obj (set_next_free_index HMGRTABLE_INVALID_INDEX
                 (set_prev_free_index HMGRTABLE_INVALID_INDEX e))))))).
Proof.
  intros H. unfold hmgrtable_assign_handle in H.
  repeat step_assign H.
  assert (Hs0 : get_index h < table_size h0).
  { pose proof (get_index_range h). rewrite INDEX_MAX_val in E.
    apply Z.leb_gt in E.
    destruct (Z.leb_spec (table_size t) (get_index h)).
    - destruct b; [|discriminate E1].
      apply expand_table_inv in E0 as [[? _]|[_ [_ Hx]]]; [discriminate|].
      destruct Hx as (ns & ? & ? & ? & ? & ? & ? & Hns & ? & ? & ? & ? & ? & Ht1).
      rewrite Ht1. cbn [table_size]. subst ns.
      rewrite INDEX_MAX_val. unfold HMGRTABLE_SIZE_INCREMENT.
      rewrite (u32_small (get_index h + 1024)) by lia.
      destruct (Z.ltb_spec 16777215 (get_index h + 1024));
      match goal with
      | |- context [if ?c then _ else _] => destruct c eqn:?
      end; rewrite ?Z.ltb_lt, ?Z.ltb_ge in *; lia.
    - injection E0 as _ <-. lia. }
  assert (Hs2 : table_size h2 = table_size h0).
  { destruct (negb _) in E5.
    - apply modify_entry_fields in E5. lia.
    - injection E5 as <-. reflexivity. }
  assert (Hs4 : table_size h4 = table_size h2).
  { destruct (negb _) in E8.
    - apply modify_entry_fields in E8. lia.
    - injection E8 as <-. reflexivity. }
  destruct (modify_entry_fields _ _ _ _ E9) as (Hs5 & _).
  assert (He4 : exists e4, entry_at h4 (get_index h) = Some e4).
  { destruct (negb _) in E8.
    - destruct (modify_entry_type _ _ _ _ _ _ E8 ltac:(reflexivity) E6) as (e4 & ? & _).
      eauto.
    - injection E8 as <-. rewrite entry_at_set_head. eauto. }
  destruct He4 as (e4 & He4).
  pose proof (entry_at_modify _ _ _ (get_index h) _ E9) as He5.
  rewrite Z.eqb_refl, He4 in He5. cbn [option_map] in He5.
  exists e4. split.
  - cbn [table_size set_free_count]. lia.
  - rewrite entry_at_set_free_count. exact He5.
Qed.

(** A successful assign makes the handle resolve, and a second assign of
    the same handle is refused. *)
Theorem assign_then_lookup mem_ok mem_ok' t o o' ty ty' h t' :
  ty <> HMGRENTRY_TYPE_FREE -> 0 <= o < 2 ^ 64 ->
  hmgrtable_assign_handle mem_ok t o ty h = Some (t', 0) ->
  hmgrtable_get_object_by_type t' ty h = Some o /\
  hmgrtable_get_object_type t' h = Some ty /\
  hmgrtable_assign_handle mem_ok' t' o' ty' h = Some (t', STATUS_INVALID_PARAMETER).
Proof.
  intros Hty Ho H.
  destruct (assign_ok_inv _ _ _ _ _ _ H) as (e & Hi & He).
  set (e1 := set_destroyed 0 _) in He.
  pose proof (get_unique_range h) as Hu.
  assert (Hv : forall x, x = HMGRENTRY_TYPE_FREE \/ x = ty ->
                 is_handle_valid t' h false x = Some true).
  { intros x Hx. apply is_handle_valid_true. exists e1.
    split; [exact Hi|]. split; [exact He|]. split.
    { subst e1. cbn [unique set_destroyed set_unique]. symmetry. apply Z.mod_small. exact Hu. }
    split; [right; reflexivity|]. split; [exact Hty|exact Hx]. }
  split; [|split].
  - unfold hmgrtable_get_object_by_type. rewrite (Hv ty (or_intror eq_refl)), He.
    cbn [negb]. f_equal. apply Z.mod_small. lia.
  - unfold hmgrtable_get_object_type, hmgrtable_get_entry_type.
    rewrite (Hv _ (or_introl eq_refl)), He. reflexivity.
  - unfold hmgrtable_assign_handle.
    destruct (HMGRHANDLE_INDEX_MAX <=? get_index h); [reflexivity|].
    destruct (Z.leb_spec (table_size t') (get_index h)); [lia|].
    cbn [negb]. rewrite He.
    destruct (Z.eqb_spec (type e1) HMGRENTRY_TYPE_FREE); [contradiction|].
    reflexivity.
Qed.

Lemma wf_entry_at lo t k :
  wf lo t -> 0 <= k < table_size t -> exists e, entry_at t k = Some e.
Proof.
  intros (_ & _ & Hent) Hk. unfold entry_at, arr_get.
  destruct (entry_table t) as [a|]; [|lia].
  destruct Hent as [Hl _].
  destruct (Z.leb_spec 0 k), (Z.ltb_spec k (Z.of_nat (length a))); try lia. cbn.
  destruct (nth_error a (Z.to_nat k)) as [e|] eqn:E; [eauto|].
  apply nth_error_None in E. lia.
Qed.

Lemma next_entry_loop_some t fuel : forall i,
  (forall k, 0 <= k < table_size t -> exists e, entry_at t k = Some e) ->
  0 <= i -> exists r, next_entry_loop fuel t i = Some r.
Proof.
  induction fuel as [|fuel IH]; intros i Hall Hi; cbn [next_entry_loop]; [eauto|].
  destruct (Z.leb_spec (table_size t) i); [eauto|].
  destruct (Hall i ltac:(lia)) as (e & ->).
  destruct (negb (type e =? HMGRENTRY_TYPE_FREE)); [eauto|].
  apply IH; auto. apply u32_range.
Qed.

Lemma next_entry_loop_spec t fuel : forall i r,
  0 <= i -> table_size t < 2 ^ 32 -> table_size t <= i + Z.of_nat fuel ->
  next_entry_loop fuel t i = Some r ->
  match r with
  | Some (i', ty, h, o) =>
      exists j e, i <= j < table_size t /\ i' = j + 1 /\ entry_at t j = Some e /\
        type e <> HMGRENTRY_TYPE_FREE /\ ty = type e /\
        h = build_handle j (unique e) (instance e) /\ o = object e /\
        (forall k, i <= k < j ->
           exists e', entry_at t k = Some e' /\ type e' = HMGRENTRY_TYPE_FREE)
  | None => forall k, i <= k < table_size t ->
           exists e', entry_at t k = Some e' /\ type e' = HMGRENTRY_TYPE_FREE
  end.
Proof.
  induction fuel as [|fuel IH]; intros i r Hi Hsz Hf H; cbn [next_entry_loop] in H.
  - injection H as <-. intros k Hk. lia.
  - destruct (Z.leb_spec (table_size t) i).
    { injection H as <-. intros k Hk. lia. }
    destruct (entry_at t i) as [e|] eqn:He; [|discriminate].
    rewrite (u32_small (i + 1)) in H by lia.
    destruct (Z.eqb_spec (type e) HMGRENTRY_TYPE_FREE) as [Ht|Ht]; cbn [negb] in H.
    + specialize (IH (i + 1) r ltac:(lia) Hsz ltac:(lia) H).
      destruct r as [[[[i' ty] h] o]|].
      * destruct IH as (j & e' & Hj & Hi' & He' & Ht' & Hty & Hh & Ho & Hfree).
        exists j, e'. repeat split; auto; try lia.
        intros k Hk. destruct (Z.eq_dec k i) as [->|Hne]; [eauto|].
        apply Hfree. lia.
      * intros k Hk. destruct (Z.eq_dec k i) as [->|Hne]; [eauto|].
        apply IH. lia.
    + injection H as <-. exists i, e. repeat split; auto; try lia;
      intros k Hk; lia.
Qed.

Lemma handle_of_entry_valid t j e ty :
  wf 0 t -> 0 <= j < table_size t -> entry_at t j = Some e ->
  type e <> HMGRENTRY_TYPE_FREE -> (ty = HMGRENTRY_TYPE_FREE \/ ty = type e) ->
  get_index (build_handle j (unique e) (instance e)) = j /\
  is_handle_valid t (build_handle j (unique e) (instance e)) true ty = Some true.
Proof.
  intros Hwf Hj He Ht Hty.
  pose proof (entry_unique_wf _ _ _ _ Hwf He) as Hu.
  destruct Hwf as (Hsz & _ & Hent). rewrite INDEX_MAX_val in Hsz.
  assert (Hi : get_index (build_handle j (unique e) (instance e)) = j)
    by (apply get_index_build_handle_any; lia).
  split; [exact Hi|].
  apply is_handle_valid_true. exists e. rewrite Hi.
  repeat split; auto; try lia.
  apply get_unique_build_handle_any. lia.
Qed.

(** [hmgrtable_next_entry] yields the first occupied slot at or after the
    start index, with a handle that resolves to the slot's object. *)
Theorem next_entry_spec (P : Z -> Prop) t idx :
  reach P t -> 0 <= idx ->
  exists r, hmgrtable_next_entry t idx = Some r /\
  match r with
  | Some (i', ty, h, o) =>
      idx < i' <= table_size t /\
      ty <> HMGRENTRY_TYPE_FREE /\
      hmgrtable_get_entry_type t (i' - 1) = Some ty /\
      hmgrtable_get_entry_object t (i' - 1) = Some o /\
      hmgrtable_build_entry_handle t (i' - 1) = Some h /\
      get_index h = i' - 1 /\
      hmgrtable_get_object_ignore_destroyed t h ty = Some o /\
      (forall k, idx <= k < i' - 1 ->
                 hmgrtable_get_entry_type t k = Some HMGRENTRY_TYPE_FREE)
  | None =>
      forall k, idx <= k < table_size t ->
                hmgrtable_get_entry_type t k = Some HMGRENTRY_TYPE_FREE
  end.
Proof.
  intros Hr Hidx. pose proof (reach_wf0 _ _ Hr) as Hwf.
  pose proof Hwf as (Hsz & _). rewrite INDEX_MAX_val in Hsz.
  unfold hmgrtable_next_entry.
  destruct (next_entry_loop_some t (Z.to_nat (table_size t - idx)) idx
              (fun k Hk => wf_entry_at _ _ _ Hwf Hk) Hidx) as (r & Hl).
  exists r. split; [exact Hl|].
  apply next_entry_loop_spec in Hl; try lia.
  unfold hmgrtable_get_entry_type, hmgrtable_get_entry_object,
    hmgrtable_build_entry_handle.
  destruct r as [[[[i' ty] h] o]|].
  - destruct Hl as (j & e & Hj & -> & He & Ht & -> & -> & -> & Hfree).
    replace (j + 1 - 1) with j by lia.
    destruct (handle_of_entry_valid t j e (type e) Hwf ltac:(lia) He Ht
                (or_intror eq_refl)) as (Hi & Hv).
    rewrite He. repeat split; auto; try lia.
    + unfold hmgrtable_get_object_ignore_destroyed. rewrite Hv, Hi, He. reflexivity.
    + intros k Hk. destruct (Hfree k ltac:(lia)) as (e' & -> & <-). reflexivity.
  - intros k Hk. destruct (Hl k Hk) as (e' & -> & <-). reflexivity.
Qed.

(** [hmgrtable_build_entry_handle] on an occupied slot yields a handle that
    designates that slot and resolves to its object. *)
Theorem build_entry_handle_resolves (P : Z -> Prop) t i e :
  reach P t -> 0 <= i < table_size t -> entry_at t i = Some e ->
  type e <> HMGRENTRY_TYPE_FREE ->
  exists h, hmgrtable_build_entry_handle t i = Some h /\ get_index h = i /\
    hmgrtable_get_object_ignore_destroyed t h HMGRENTRY_TYPE_FREE = Some (object e) /\
    hmgrtable_get_object_by_type t (type e) h =
      Some (if destroyed e =? 0 then object e else 0).
Proof.
  intros Hr Hi He Ht. pose proof (reach_wf0 _ _ Hr) as Hwf.
  destruct (handle_of_entry_valid t i e HMGRENTRY_TYPE_FREE Hwf Hi He Ht
              (or_introl eq_refl)) as (Hix & Hv).
  destruct (handle_of_entry_valid t i e (type e) Hwf Hi He Ht
              (or_intror eq_refl)) as (_ & Hv').
  exists (build_handle i (unique e) (instance e)).
  unfold hmgrtable_build_entry_handle. rewrite He.
  split; [reflexivity|]. split; [exact Hix|]. split.
  - unfold hmgrtable_get_object_ignore_destroyed. rewrite Hv, Hix, He. reflexivity.
  - unfold hmgrtable_get_object_by_type.
    destruct (Z.eqb_spec (destroyed e) 0) as [Hd|Hd].
    + rewrite <- Hix in He.
      rewrite <- (is_handle_valid_not_destroyed _ _ _ _ He Hd), Hv'. cbn [negb].
      rewrite He. reflexivity.
    + rewrite <- Hix in He.
      rewrite (is_handle_valid_destroyed _ _ _ _ He Hd). reflexivity.
Qed.

Lemma is_handle_valid_defined lo t h ig ty :
  wf lo t -> exists b, is_handle_valid t h ig ty = Some b.
Proof.
  intros Hwf. pose proof (get_index_range h) as Hr.
  unfold is_handle_valid.
  destruct (Z.leb_spec (table_size t) (get_index h)); [eauto|].
  destruct (wf_entry_at _ t (get_index h) Hwf ltac:(lia)) as (e & ->).
  destruct (negb (get_unique h =? unique e)); [eauto|].
  destruct (negb (destroyed e =? 0) && negb ig); [eauto|].
  destruct (type e =? HMGRENTRY_TYPE_FREE); [eauto|].
  destruct (negb (ty =? HMGRENTRY_TYPE_FREE) && negb (ty =? type e)); eauto.
Qed.

Lemma valid_entry_defined t h ig ty :
  is_handle_valid t h ig ty = Some true ->
  exists e, entry_at t (get_index h) = Some e.
Proof.
  intros Hv. apply is_handle_valid_true in Hv as (e & _ & He & _). eauto.
Qed.

(** On a reachable table, the handle lookups and the destroyed-mark
    operations stay inside the entry array for every handle value. *)
Theorem lookups_in_bounds (P : Z -> Prop) t h ty :
  reach P t ->
  (exists o, hmgrtable_get_object t h = Some o) /\
  (exists o, hmgrtable_get_object_by_type t ty h = Some o) /\
  (exists o, hmgrtable_get_object_ignore_destroyed t h ty = Some o) /\
  (exists x, hmgrtable_get_object_type t h = Some x) /\
  (exists r, hmgrtable_mark_destroyed t h = Some r) /\
  (exists r, hmgrtable_unmark_destroyed t h = Some r).
Proof.
  intros Hr. pose proof (reach_wf0 _ _ Hr) as Hwf.
  unfold hmgrtable_get_object, hmgrtable_get_object_by_type,
    hmgrtable_get_object_ignore_destroyed, hmgrtable_get_object_type,
    hmgrtable_get_entry_type, hmgrtable_mark_destroyed, hmgrtable_unmark_destroyed.
  repeat split.
  - destruct (is_handle_valid_defined _ t h false HMGRENTRY_TYPE_FREE Hwf) as ([|] & Hv);
      rewrite Hv; cbn [negb]; [|eauto].
    destruct (valid_entry_defined _ _ _ _ Hv) as (e & ->). eauto.
  - destruct (is_handle_valid_defined _ t h false ty Hwf) as ([|] & Hv);
      rewrite Hv; cbn [negb]; [|eauto].
    destruct (valid_entry_defined _ _ _ _ Hv) as (e & ->). eauto.
  - destruct (is_handle_valid_defined _ t h true ty Hwf) as ([|] & Hv);
      rewrite Hv; cbn [negb]; [|eauto].
    destruct (valid_entry_defined _ _ _ _ Hv) as (e & ->). eauto.
  - destruct (is_handle_valid_defined _ t h false HMGRENTRY_TYPE_FREE Hwf) as ([|] & Hv);
      rewrite Hv; cbn [negb]; [|eauto].
    destruct (valid_entry_defined _ _ _ _ Hv) as (e & ->). eauto.
  - destruct (is_handle_valid_defined _ t h false HMGRENTRY_TYPE_FREE Hwf) as ([|] & Hv);
      rewrite Hv; cbn [negb]; [|eauto].
    destruct (valid_entry_defined _ _ _ _ Hv) as (e & He).
    destruct (modify_entry_exists t (get_index h) (set_destroyed 1) e He) as (t' & -> & _).
    eauto.
  - destruct (is_handle_valid_defined _ t h true HMGRENTRY_TYPE_FREE Hwf) as ([|] & Hv);
      rewrite Hv; cbn [negb]; [|eauto].
    destruct (valid_entry_defined _ _ _ _ Hv) as (e & He).
    destruct (modify_entry_exists t (get_index h) (set_destroyed 0) e He) as (t' & -> & _).
    eauto.
Qed.

(** [is_empty] agrees with [hmgrtable_get_used_entry_count] on a
    reachable table. *)
Theorem is_empty_iff_no_used (P : Z -> Prop) t :
  reach P t -> is_empty t = true <-> hmgrtable_get_used_entry_count t = 0.
Proof.
  intros Hr. destruct (reach_wf0 _ _ Hr) as (Hsz & Hfc & _).
  rewrite INDEX_MAX_val in Hsz.
  unfold is_empty, hmgrtable_get_used_entry_count, u32.
  rewrite Z.eqb_eq. split.
  - intros ->. rewrite Z.sub_diag. reflexivity.
  - intros H. apply Z.mod_divide in H; [|lia].
    destruct H as (k & Hk). nia.
Qed.

(** ** Witnesses *)

(** Evaluates a hypothesis by moving it to the goal, so that the kernel
    checks the conversion with the virtual machine. *)
Ltac vm_in H := revert H; vm_compute; intros H.

Lemma build_handle_decode_witness :
  0 <= 1073741895 < 2 ^ 32 /\
  build_handle (get_index 1073741895) (get_unique 1073741895)
    (get_instance 1073741895) = 1073741895.
Proof. split; [lia | apply build_handle_decode; lia]. Defined.

Lemma mark_destroyed_effect_witness :
  match run_ops hmgrtable_init [OpAlloc true 7 1 true] with
  | Some t =>
      is_handle_valid t 1073741824 false HMGRENTRY_TYPE_FREE = Some true /\
      exists t',
        hmgrtable_mark_destroyed t 1073741824 = Some (t', true) /\
        hmgrtable_get_object t' 1073741824 = Some 0 /\
        (forall ty, hmgrtable_get_object_ignore_destroyed t' 1073741824 ty =
                    hmgrtable_get_object_by_type t ty 1073741824) /\
        hmgrtable_mark_destroyed t' 1073741824 = Some (t', false)
  | None => False
  end.
Proof.
  destruct (run_ops hmgrtable_init _) as [t|] eqn:E; [|vm_in E; discriminate].
  assert (Hv : is_handle_valid t 1073741824 false HMGRENTRY_TYPE_FREE = Some true)
    by (vm_in E; injection E as <-; vm_compute; reflexivity).
  split; [exact Hv | exact (mark_destroyed_effect t 1073741824 Hv)].
Defined.

Lemma unmark_after_mark_witness :
  match run_ops hmgrtable_init [OpAlloc true 7 1 true] with
  | Some t =>
      match hmgrtable_mark_destroyed t 1073741824 with
      | Some (t', true) =>
          is_handle_valid t 1073741824 false HMGRENTRY_TYPE_FREE = Some true /\
          hmgrtable_mark_destroyed t 1073741824 = Some (t', true) /\
          hmgrtable_unmark_destroyed t' 1073741824 = Some (t, true)
      | _ => False
      end
  | None => False
  end.
Proof.
  destruct (run_ops hmgrtable_init _) as [t|] eqn:E; [|vm_in E; discriminate].
  assert (Hv : is_handle_valid t 1073741824 false HMGRENTRY_TYPE_FREE = Some true)
    by (vm_in E; injection E as <-; vm_compute; reflexivity).
  destruct (hmgrtable_mark_destroyed t 1073741824) as [[t' [|]]|] eqn:Hm;
    [| vm_in E; injection E as <-; vm_in Hm; discriminate
     | vm_in E; injection E as <-; vm_in Hm; discriminate].
  split; [exact Hv|]. split; [reflexivity|].
  exact (unmark_after_mark t 1073741824 t' Hv Hm).
Defined.

Lemma unmark_destroyed_effect_witness :
  match hmgrtable_alloc_handle true hmgrtable_init 7 1 false with
  | Some (AllocOk t h) =>
      match hmgrtable_unmark_destroyed t h with
      | Some (t', b) =>
          hmgrtable_unmark_destroyed t h = Some (t', b) /\
          b = true /\
          hmgrtable_unmark_destroyed t' h = Some (t', true) /\
          (forall ty, hmgrtable_get_object_by_type t' ty h =
                      hmgrtable_get_object_ignore_destroyed t h ty)
      | None => False
      end
  | _ => False
  end.
Proof.
  destruct (hmgrtable_alloc_handle true hmgrtable_init 7 1 false) as [[t|t h]|] eqn:E;
    [vm_in E; discriminate| |vm_in E; discriminate].
  destruct (hmgrtable_unmark_destroyed t h) as [[t' b]|] eqn:Hu;
    [| vm_in E; injection E as <- <-; vm_in Hu; discriminate].
  split; [reflexivity | exact (unmark_destroyed_effect t h t' b Hu)].
Defined.

Lemma freed_handle_rejected_witness :
  match run_ops hmgrtable_init [OpAlloc true 7 1 true] with
  | Some t =>
      match hmgrtable_free_handle t 1 1073741824 with
      | Some t' =>
          is_handle_valid t 1073741824 true 1 = Some true /\
          hmgrtable_free_handle t 1 1073741824 = Some t' /\
          (forall ig ty', is_handle_valid t' 1073741824 ig ty' = Some false) /\
          hmgrtable_get_object t' 1073741824 = Some 0 /\
          hmgrtable_get_object_type t' 1073741824 = Some HMGRENTRY_TYPE_FREE /\
          hmgrtable_mark_destroyed t' 1073741824 = Some (t', false)
      | None => False
      end
  | None => False
  end.
Proof.
  destruct (run_ops hmgrtable_init _) as [t|] eqn:E; [|vm_in E; discriminate].
  assert (Hv : is_handle_valid t 1073741824 true 1 = Some true)
    by (vm_in E; injection E as <-; vm_compute; reflexivity).
  destruct (hmgrtable_free_handle t 1 1073741824) as [t'|] eqn:Hf;
    [| vm_in E; injection E as <-; vm_in Hf; discriminate].
  split; [exact Hv|]. split; [reflexivity|].
  exact (freed_handle_rejected t 1 1073741824 t' Hv Hf).
Defined.

Lemma free_valid_effect_witness :
  match run_ops hmgrtable_init [OpAlloc true 7 1 true] with
  | Some t =>
      match hmgrtable_free_handle t 1 1073741824 with
      | Some t' =>
          is_handle_valid t 1073741824 true 1 = Some true /\
          hmgrtable_free_handle t 1 1073741824 = Some t' /\
          table_size t' = table_size t /\
          free_handle_list_head t' = free_handle_list_head t /\
          free_handle_list_tail t' = get_index 1073741824 /\
          free_count t' = u32 (free_count t + 1) /\
          hmgrtable_get_used_entry_count t' =
            u32 (hmgrtable_get_used_entry_count t - 1) /\
          (forall j, j <> get_index 1073741824 -> j <> free_handle_list_tail t ->
                     entry_at t' j = entry_at t j)
      | None => False
      end
  | None => False
  end.
Proof.
  destruct (run_ops hmgrtable_init _) as [t|] eqn:E; [|vm_in E; discriminate].
  assert (Hv : is_handle_valid t 1073741824 true 1 = Some true)
    by (vm_in E; injection E as <-; vm_compute; reflexivity).
  destruct (hmgrtable_free_handle t 1 1073741824) as [t'|] eqn:Hf;
    [| vm_in E; injection E as <-; vm_in Hf; discriminate].
  split; [exact Hv|]. split; [reflexivity|].
  exact (free_valid_effect t 1 1073741824 t' Hv Hf).
Defined.

Lemma alloc_valid_lookups_witness :
  match hmgrtable_alloc_handle true hmgrtable_init 42 1 true with
  | Some (AllocOk t' h) =>
      hmgrtable_get_object t' h = Some 42 /\
      hmgrtable_get_object_type t' h = Some 1 /\
      hmgrtable_build_entry_handle t' (get_index h) = Some h
  | _ => False
  end.
Proof.
  destruct (hmgrtable_alloc_handle true hmgrtable_init 42 1 true) as [[t'|t' h]|] eqn:E.
  - vm_in E. discriminate.
  - refine (alloc_valid_lookups (fun _ => True) true hmgrtable_init 42 1 t' h
              (reach_init _) _ _ E); [discriminate | lia].
  - vm_in E. discriminate.
Defined.

Lemma alloc_destroyed_then_unmark_witness :
  match hmgrtable_alloc_handle true hmgrtable_init 42 1 false with
  | Some (AllocOk t' h) =>
      hmgrtable_get_object_by_type t' 1 h = Some 0 /\
      hmgrtable_get_object_ignore_destroyed t' h 1 = Some 42 /\
      exists t'', hmgrtable_unmark_destroyed t' h = Some (t'', true) /\
                  hmgrtable_get_object_by_type t'' 1 h = Some 42
  | _ => False
  end.
Proof.
  destruct (hmgrtable_alloc_handle true hmgrtable_init 42 1 false) as [[t'|t' h]|] eqn:E.
  - vm_in E. discriminate.
  - refine (alloc_destroyed_then_unmark (fun _ => True) true hmgrtable_init 42 1 t' h
              (reach_init _) _ _ E); [discriminate | lia].
  - vm_in E. discriminate.
Defined.

Lemma alloc_used_count_witness :
  match hmgrtable_alloc_handle true hmgrtable_init 42 1 true with
  | Some (AllocOk t' h) =>
      hmgrtable_get_used_entry_count t' =
        u32 (hmgrtable_get_used_entry_count hmgrtable_init + 1)
  | _ => False
  end.
Proof.
  destruct (hmgrtable_alloc_handle true hmgrtable_init 42 1 true) as [[t'|t' h]|] eqn:E.
  - vm_in E. discriminate.
  - exact (alloc_used_count true hmgrtable_init 42 1 true t' h E).
  - vm_in E. discriminate.
Defined.

Lemma assign_then_lookup_witness :
  match hmgrtable_assign_handle true hmgrtable_init 42 1 (build_handle 3 1 0) with
  | Some (t', 0) =>
      hmgrtable_get_object_by_type t' 1 (build_handle 3 1 0) = Some 42 /\
      hmgrtable_get_object_type t' (build_handle 3 1 0) = Some 1 /\
      hmgrtable_assign_handle true t' 9 2 (build_handle 3 1 0) =
        Some (t', STATUS_INVALID_PARAMETER)
  | _ => False
  end.
Proof.
  destruct (hmgrtable_assign_handle true hmgrtable_init 42 1 (build_handle 3 1 0))
    as [[t' [|p|p]]|] eqn:E; try (exfalso; vm_in E; discriminate).
  refine (assign_then_lookup true true hmgrtable_init 42 9 1 2 _ t' _ _ E);
    [discriminate | lia].
Defined.

Lemma next_entry_spec_witness :
  match run_ops hmgrtable_init [OpAlloc true 7 1 true; OpAlloc true 8 2 true] with
  | Some t =>
      reach (fun _ => True) t /\ 0 <= 1 /\
      exists r, hmgrtable_next_entry t 1 = Some r /\
      match r with
      | Some (i', ty, h, o) =>
          1 < i' <= table_size t /\
          ty <> HMGRENTRY_TYPE_FREE /\
          hmgrtable_get_entry_type t (i' - 1) = Some ty /\
          hmgrtable_get_entry_object t (i' - 1) = Some o /\
          hmgrtable_build_entry_handle t (i' - 1) = Some h /\
          get_index h = i' - 1 /\
          hmgrtable_get_object_ignore_destroyed t h ty = Some o /\
          (forall k, 1 <= k < i' - 1 ->
                     hmgrtable_get_entry_type t k = Some HMGRENTRY_TYPE_FREE)
      | None =>
          forall k, 1 <= k < table_size t ->
                    hmgrtable_get_entry_type t k = Some HMGRENTRY_TYPE_FREE
      end
  | None => False
  end.
Proof.
  destruct (run_ops hmgrtable_init _) as [t|] eqn:E; [|vm_in E; discriminate].
  assert (Hr : reach (fun _ => True) t)
    by exact (run_ops_reach _ _ _ _ (reach_init _) (Forall_op_assign_ok_true _) E).
  split; [exact Hr|]. split; [lia|].
  exact (next_entry_spec (fun _ => True) t 1 Hr ltac:(lia)).
Defined.

Lemma build_entry_handle_resolves_witness :
  match run_ops hmgrtable_init [OpAlloc true 7 1 true] with
  | Some t =>
      match entry_at t 0 with
      | Some e =>
          reach (fun _ => True) t /\ 0 <= 0 < table_size t /\
          entry_at t 0 = Some e /\ type e <> HMGRENTRY_TYPE_FREE /\
          exists h, hmgrtable_build_entry_handle t 0 = Some h /\ get_index h = 0 /\
            hmgrtable_get_object_ignore_destroyed t h HMGRENTRY_TYPE_FREE =
              Some (object e) /\
            hmgrtable_get_object_by_type t (type e) h =
              Some (if destroyed e =? 0 then object e else 0)
      | None => False
      end
  | None => False
  end.
Proof.
  destruct (run_ops hmgrtable_init _) as [t|] eqn:E; [|vm_in E; discriminate].
  assert (Hr : reach (fun _ => True) t)
    by exact (run_ops_reach _ _ _ _ (reach_init _) (Forall_op_assign_ok_true _) E).
  destruct (entry_at t 0) as [e|] eqn:He;
    [| vm_in E; injection E as <-; vm_in He; discriminate].
  assert (Hs : 0 <= 0 < table_size t)
    by (vm_in E; injection E as <-; split; [intro; discriminate | vm_compute; reflexivity]).
  assert (Ht : type e <> HMGRENTRY_TYPE_FREE)
    by (vm_in E; injection E as <-; vm_in He; injection He as <-;
        vm_compute; discriminate).
  split; [exact Hr|]. split; [exact Hs|]. split; [reflexivity|]. split; [exact Ht|].
  exact (build_entry_handle_resolves (fun _ => True) t 0 e Hr Hs He Ht).
Defined.

Lemma lookups_in_bounds_witness :
  match run_ops hmgrtable_init [OpAlloc true 7 1 true] with
  | Some t =>
      reach (fun _ => True) t /\
      (exists o, hmgrtable_get_object t 4294967295 = Some o) /\
      (exists o, hmgrtable_get_object_by_type t 1 4294967295 = Some o) /\
      (exists o, hmgrtable_get_object_ignore_destroyed t 4294967295 1 = Some o) /\
      (exists x, hmgrtable_get_object_type t 4294967295 = Some x) /\
      (exists r, hmgrtable_mark_destroyed t 4294967295 = Some r) /\
      (exists r, hmgrtable_unmark_destroyed t 4294967295 = Some r)
  | None => False
  end.
Proof.
  destruct (run_ops hmgrtable_init _) as [t|] eqn:E; [|vm_in E; discriminate].
  assert (Hr : reach (fun _ => True) t)
    by exact (run_ops_reach _ _ _ _ (reach_init _) (Forall_op_assign_ok_true _) E).
  split; [exact Hr | exact (lookups_in_bounds (fun _ => True) t 4294967295 1 Hr)].
Defined.

Lemma is_empty_iff_no_used_witness :
  match run_ops hmgrtable_init [OpAlloc true 7 1 true; OpFree 1 1073741824] with
  | Some t =>
      reach (fun _ => True) t /\
      (is_empty t = true <-> hmgrtable_get_used_entry_count t = 0)
  | None => False
  end.
Proof.
  destruct (run_ops hmgrtable_init _) as [t|] eqn:E; [|vm_in E; discriminate].
  assert (Hr : reach (fun _ => True) t)
    by exact (run_ops_reach _ _ _ _ (reach_init _) (Forall_op_assign_ok_true _) E).
  split; [exact Hr | exact (is_empty_iff_no_used (fun _ => True) t Hr)].
Defined.
